(** * Groq API nodes: credential rotation and the bounded retry loop

    A shallow embedding of [nodes/groq_api_llm.py] (class [GroqAPILLM]) and
    [nodes/groq_api_vlm.py] (class [GroqAPIVLM]).

    Python [str] values are modelled as [string]: the strings whose
    characters have code points below 256.  Python [int] is [Z], Python [float] as the kernel's binary64
    [float], a [dict] with string keys used as a map as [gmap string _], a
    [list] as [list].  The remote service, the file system and the helpers of
    [utils/] are the environment: they are binders of the Sections below. *)

From Stdlib Require Import Floats.PrimFloat Ascii.
From stdpp Require Import base option list strings pretty gmap fin_maps.

Set Warnings "-register-all".
Local Open Scope string_scope.
Local Open Scope list_scope.

(** ** Python strings *)

Module Py.

(** [c.lower()] on one character: [A]..[Z] are shifted to [a]..[z].  The
    characters from 128 on are left as they are; lowering them gives
    characters from 128 on again, so that the search for a text of letters
    below 128 in a lowered string is not touched by it. *)
Definition lower_ascii (c : ascii) : ascii :=
  let n := Ascii.nat_of_ascii c in
  if bool_decide (65 ≤ n ≤ 90)%nat then Ascii.ascii_of_nat (n + 32) else c.

(** [s.lower()]. *)
Fixpoint lower (s : string) : string :=
  match s with
  | EmptyString => EmptyString
  | String c s' => String (lower_ascii c) (lower s')
  end.

(** [hay.startswith(needle)]. *)
Fixpoint startswith (needle hay : string) : bool :=
  match needle, hay with
  | EmptyString, _ => true
  | String _ _, EmptyString => false
  | String a n', String b h' => bool_decide (a = b) && startswith n' h'
  end.

(** [needle in hay] for two strings: [needle] starts at some position. *)
Fixpoint contains (needle hay : string) : bool :=
  startswith needle hay ||
  match hay with
  | EmptyString => false
  | String _ h' => contains needle h'
  end.

(** [s.split(sep)] for a one-character separator: the pieces between the
    occurrences of [sep]; one more piece than there are separators. *)
Fixpoint split (sep : ascii) (s : string) : list string :=
  match s with
  | EmptyString => [EmptyString]
  | String c s' =>
      if bool_decide (c = sep) then EmptyString :: split sep s'
      else match split sep s' with
           | [] => [String c EmptyString]
           | piece :: rest => String c piece :: rest
           end
  end.

(** [c.isspace()] for a character of a [str] with a code point below 256:
    TAB, LF, VT, FF, CR (9..13), the separators FS, GS, RS, US (28..31), the
    blank (32), NEL (U+0085) and the no-break space (U+00A0). *)
Definition isspace (c : ascii) : bool :=
  let n := Ascii.nat_of_ascii c in
  bool_decide (9 ≤ n ≤ 13)%nat || bool_decide (28 ≤ n ≤ 32)%nat
  || bool_decide (n = 133)%nat || bool_decide (n = 160)%nat.

(** [s.lstrip()]. *)
Fixpoint lstrip (s : string) : string :=
  match s with
  | EmptyString => EmptyString
  | String c s' => if isspace c then lstrip s' else s
  end.

(** [s.rstrip()]: a character is dropped when it is white and nothing but
    white space follows it. *)
Fixpoint rstrip (s : string) : string :=
  match s with
  | EmptyString => EmptyString
  | String c s' =>
      match rstrip s' with
      | EmptyString => if isspace c then EmptyString else String c EmptyString
      | r => String c r
      end
  end.

(** [s.strip()]. *)
Definition strip (s : string) : string := rstrip (lstrip s).

(** The line feed, written [\n] in Python. *)
Definition NL : string := String (Ascii.ascii_of_nat 10) EmptyString.

(** Truth value of a [str]: [if s:] holds when [s] is not empty. *)
Definition truthy (s : string) : bool :=
  match s with EmptyString => false | String _ _ => true end.

(** [str(n)] for an [int]. *)
Definition str_of_int (n : Z) : string := pretty n.

(** Python objects as they come out of [json.load] and [response.json()],
    and as the node hands them back to the host. *)
Inductive value : Type :=
| PyNone
| PyBool (b : bool)
| PyInt (n : Z)
| PyFloat (x : float)
| PyStr (s : string)
| PyList (xs : list value)
| PyDict (kvs : list (string * value)).

(** [isinstance(v, str)]. *)
Definition is_str (v : value) : bool :=
  match v with PyStr _ => true | _ => false end.

(** A subscript [v[k]] is taken with a string or with an integer. *)
Inductive key : Type :=
| KStr (s : string)
| KInt (i : Z).

(** First binding of [k] in the items of a dict. *)
Fixpoint assoc (k : string) (kvs : list (string * value)) : option value :=
  match kvs with
  | [] => None
  | (k', v) :: rest => if bool_decide (k = k') then Some v else assoc k rest
  end.

(** The exceptions the nodes can meet.  [RequestException msg] stands for
    an instance of [requests.exceptions.RequestException] or of one of its
    subclasses, [msg] being [str(e)]; the others are the builtin
    exceptions of these names, none of which is a [RequestException]. *)
Inductive exn : Type :=
| KeyError (k : key)
| IndexError
| TypeError
| ZeroDivisionError
| ValueError
| RuntimeError
| RequestException (msg : string).

(** [seq[i]] with Python's negative indices. *)
Definition index {A} (xs : list A) (i : Z) : option A :=
  if bool_decide (0 ≤ i)%Z then xs !! Z.to_nat i
  else if bool_decide (- Z.of_nat (length xs) ≤ i)%Z
       then xs !! Z.to_nat (Z.of_nat (length xs) + i)
       else None.

(** [v[k]]: a dict is looked up by key (its keys are strings, so an
    integer is never one of them), a list and a string are indexed by an
    integer, and nothing else can be subscripted. *)
Definition getitem (v : value) (k : key) : exn + value :=
  match v, k with
  | PyDict kvs, KStr s =>
      match assoc s kvs with Some x => inr x | None => inl (KeyError k) end
  | PyDict _, KInt _ => inl (KeyError k)
  | PyList xs, KInt i =>
      match index xs i with Some x => inr x | None => inl IndexError end
  | PyList _, KStr _ => inl TypeError
  | PyStr s, KInt i =>
      match index (String.list_ascii_of_string s) i with
      | Some c => inr (PyStr (String c EmptyString))
      | None => inl IndexError
      end
  | PyStr _, KStr _ => inl TypeError
  | _, _ => inl TypeError
  end.

End Py.

(** ** The [requests] library, as far as the nodes use it *)

Module Requests.
Import Py.

(** A chat message part of the vision node:
    [{"type": "text", "text": t}] or
    [{"type": "image_url", "image_url": {"url": u}}]. *)
Inductive part : Type :=
| TextPart (text : string)
| ImageUrlPart (url : string).

(** The ["content"] of a message: a string (text node) or a list of parts
    (vision node). *)
Inductive content : Type :=
| Text (s : string)
| Parts (ps : list part).

(** [{"role": r, "content": c}]. *)
Record message : Type := Message { role : string; msg_content : content }.

(** The dict [data] sent as the JSON body.  The key ['stop'] is present
    exactly when [stop] is [Some _]. *)
Record Data : Type := {
  model : string;
  messages : list message;
  temperature : float;
  max_tokens : Z;
  top_p : float;
  seed : Z;
  stop : option string
}.

(** One call [requests.post(url, headers=headers, json=data)]. *)
Record Request : Type := {
  url : string;
  headers : list (string * string);
  json : Data
}.

(** What the node reads of a [requests.Response]: the status line, the
    URL, and what [response.json()] makes of the body: the decoded object,
    or the message of the [requests.exceptions.JSONDecodeError] it raises
    on a body that is not JSON (a [RequestException] since requests
    2.27). *)
Record Response : Type := {
  status_code : Z;
  reason : string;
  resp_url : string;
  body : string + value
}.

(** [requests.post] either raises a [RequestException] (no connection,
    timeout, ...) with the given text, or returns a response, whatever its
    status. *)
Inductive post_result : Type :=
| Failed (msg : string)
| Answered (r : Response).

(** [response.raise_for_status()]: an [HTTPError] (a [RequestException])
    for a status from 400 to 599, nothing otherwise. *)
Definition raise_for_status (r : Response) : exn + unit :=
  if bool_decide (400 ≤ status_code r < 500)%Z then
    inl (RequestException
           (str_of_int (status_code r) +:+ " Client Error: " +:+ reason r
              +:+ " for url: " +:+ resp_url r))
  else if bool_decide (500 ≤ status_code r < 600)%Z then
    inl (RequestException
           (str_of_int (status_code r) +:+ " Server Error: " +:+ reason r
              +:+ " for url: " +:+ resp_url r))
  else inr ().

(** [response.json()]. *)
Definition json_of (r : Response) : exn + value :=
  match body r with
  | inl msg => inl (RequestException msg)
  | inr v => inr v
  end.

End Requests.

(** ** Console output and the trace of a call *)

(** [colorama.Fore] colours the nodes print in. *)
Inductive colour : Type := RED | YELLOW.

(** What a call does to the outside: [print(Fore.c + text + Style.RESET_ALL)]
    and [requests.post]. *)
Inductive event : Type :=
| Print (c : colour) (text : string)
| Post (rq : Requests.Request).

(** The requests among the events of a trace, in order. *)
Definition posts (tr : list event) : list Requests.Request :=
  omap (λ ev, match ev with Post rq => Some rq | Print _ _ => None end) tr.

(** ** What the two node classes have in common

    [GroqAPILLM] and [GroqAPIVLM] carry the same fields and, word for word,
    the same [load_api_keys], [get_next_api_key], [load_prompt_options] and
    the same retry loop at the end of [process_completion_request]
    (lines 147-161 of [groq_api_llm.py], 172-186 of [groq_api_vlm.py]). *)

Module GroqNode.
Import Py Requests.

(** A [ConfigParser] as its mapping protocol shows it: sections, and in
    each the options with their values.  A configuration file is taken as
    it parses, and as one without a [DEFAULT] section and without [%] in
    its values. *)
Abbreviation ini := (gmap string (gmap string string)).

(** A prompt file of the [groq] directory: missing, or a flat JSON object
    from preset names to prompt texts, or a file on which [open],
    [json.load] or [dict.update] raises. *)
Inductive prompt_file : Type :=
| Missing
| Prompts (m : gmap string string)
| Broken.

(** The files a constructor looks at: [groq/GroqConfig.ini] next to the
    module and in the parent directory ([None]: [os.path.exists] is
    false), and the default and user prompt files of the class. *)
Record Files : Type := {
  groq_config : option ini;
  parent_groq_config : option ini;
  default_prompts : prompt_file;
  user_prompts : prompt_file
}.

(** The fields set by [__init__]. *)
Record Node : Type := {
  api_keys : list string;
  current_key_index : nat;
  prompt_options : gmap string string
}.

(** [config.read(path)]: the file's sections are added to those read
    before, option by option, the later value winning. *)
Definition config_read (file config : ini) : ini :=
  union_with (λ new old, Some (new ∪ old)) file config.

(** The loop of [load_api_keys] over [config_paths], with the parser
    [config] shared by its iterations. *)
Fixpoint load_api_keys_from (paths : list (option ini)) (config : ini)
  : exn + list string :=
  match paths with
  | [] => inr ["default_api_key"]
  | None :: rest => load_api_keys_from rest config
  | Some file :: rest =>
      let config := config_read file config in
      match config !! "API_KEYS" with
      | Some section =>
          match section !! "groq_keys" with
          | Some keys => inr (strip <$> split "," keys)
          | None => inl (KeyError (KStr "groq_keys"))
          end
      | None => load_api_keys_from rest config
      end
  end.

Definition load_api_keys (fs : Files) : exn + list string :=
  load_api_keys_from [groq_config fs; parent_groq_config fs] ∅.

(** The loop of [load_prompt_options]: [None] when an exception leaves
    the [try] block. *)
Fixpoint load_prompts_from (files : list prompt_file)
    (prompt_options : gmap string string) : option (gmap string string) :=
  match files with
  | [] => Some prompt_options
  | Missing :: rest => load_prompts_from rest prompt_options
  | Prompts m :: rest => load_prompts_from rest (m ∪ prompt_options)
  | Broken :: _ => None
  end.

(** [load_prompt_options]: [except Exception] returns [{}]. *)
Definition load_prompt_options (fs : Files) : gmap string string :=
  default ∅ (load_prompts_from [default_prompts fs; user_prompts fs] ∅).

(** [__init__]. *)
Definition init (fs : Files) : exn + Node :=
  match load_api_keys fs with
  | inl e => inl e
  | inr keys =>
      inr {| api_keys := keys;
             current_key_index := 0;
             prompt_options := load_prompt_options fs |}
  end.

(** The invariant of the data model: the cursor is an index of the pool,
    which therefore is not empty. *)
Definition valid (self : Node) : Prop :=
  current_key_index self < length (api_keys self).

(** The result tuple [(api_response, success, status_code)]. *)
Definition result : Type := value * bool * value.

Definition MAX_RETRIES_TEXT : string :=
  "Max retries reached. Unable to complete the request.".

Definition URL : string := "https://api.groq.com/openai/v1/chat/completions".

(** The three statements that open [process_completion_request]:
    [torch.manual_seed(seed)] raises [RuntimeError] for a seed outside
    -2**63 .. 2**64-1, [np.random.seed(seed)] raises [ValueError] for a seed
    outside 0 .. 2**32-1, and [random.seed(seed)] takes any [int].  What
    they do to the random number generators is seen neither by the object
    nor by the console nor by the network. *)
Definition seeding (seed : Z) : exn + unit :=
  if negb (bool_decide (- 2 ^ 63 ≤ seed < 2 ^ 64)%Z) then inl RuntimeError
  else if negb (bool_decide (0 ≤ seed < 2 ^ 32)%Z) then inl ValueError
  else inr ().

(** [js['choices'][0]['message']['content']]. *)
Definition first_choice_content (js : value) : exn + value :=
  match getitem js (KStr "choices") with
  | inl e => inl e
  | inr choices =>
      match getitem choices (KInt 0) with
      | inl e => inl e
      | inr choice =>
          match getitem choice (KStr "message") with
          | inl e => inl e
          | inr message => getitem message (KStr "content")
          end
      end
  end.

Section Effects.
(** The remote service: a state of the outside world and the answer it
    gives to a request. *)
Context {World : Type}.
Variable post : World → Request → post_result * World.

(** The object, the outside world, and what the call did so far. *)
Record State : Type := {
  self : Node;
  world : World;
  trace : list event
}.

(** A computation changes the state and returns or raises. *)
Definition M (A : Type) : Type := State → (exn + A) * State.

#[local] Instance M_ret : MRet M := λ A a st, (inr a, st).
#[local] Instance M_bind : MBind M := λ A B f m st,
  match m st with
  | (inr a, st') => f a st'
  | (inl e, st') => (inl e, st')
  end.

Definition raise {A} (e : exn) : M A := λ st, (inl e, st).

Definition lift {A} (r : exn + A) : M A := λ st, (r, st).

(** [try: m  except ...: h e]; [h e = None] when no clause matches [e],
    which then goes on to the caller. *)
Definition try_except {A} (m : M A) (h : exn → option (M A)) : M A :=
  λ st,
    match m st with
    | (inr a, st') => (inr a, st')
    | (inl e, st') =>
        match h e with
        | Some k => k st'
        | None => (inl e, st')
        end
    end.

Definition emit (ev : event) : M unit := λ st,
  (inr (), {| self := self st; world := world st;
              trace := trace st ++ [ev] |}).

Definition print (c : colour) (text : string) : M unit := emit (Print c text).

Definition get_self : M Node := λ st, (inr (self st), st).

Definition set_current_key_index (i : nat) : M unit := λ st,
  (inr (), {| self := {| api_keys := api_keys (self st);
                         current_key_index := i;
                         prompt_options := prompt_options (self st) |};
              world := world st; trace := trace st |}).

(** [requests.post(url, headers=headers, json=data)]. *)
Definition requests_post (rq : Request) : M Response := λ st,
  let '(r, w) := post (world st) rq in
  let st' := {| self := self st; world := w;
                trace := trace st ++ [Post rq] |} in
  match r with
  | Failed msg => (inl (RequestException msg), st')
  | Answered resp => (inr resp, st')
  end.

(** [get_next_api_key]. *)
Definition get_next_api_key : M string :=
  me ← get_self;
  match length (api_keys me) with
  | 0 => raise ZeroDivisionError
  | S _ =>
      set_current_key_index
        ((current_key_index me + 1) `mod` length (api_keys me));;
      me ← get_self;
      match api_keys me !! current_key_index me with
      | Some k => mret k
      | None => raise IndexError
      end
  end.

(** [self.api_keys[self.current_key_index]]. *)
Definition current_api_key : M string :=
  me ← get_self;
  match api_keys me !! current_key_index me with
  | Some k => mret k
  | None => raise IndexError
  end.

(** The body of the [try] block: one attempt. *)
Definition attempt (data : Data) : M result :=
  k ← current_api_key;
  let headers := [("Authorization", "Bearer " +:+ k)] in
  response ← requests_post {| url := URL; headers := headers; json := data |};
  lift (raise_for_status response);;
  js ← lift (json_of response);
  content ← lift (first_choice_content js);
  mret (content, true, PyInt (status_code response)).

(** ['rate limit' in str(e).lower()]. *)
Definition is_rate_limit (msg : string) : bool :=
  contains "rate limit" (lower msg).

(** The body of the clause
    [except requests.exceptions.RequestException as e], [msg] being
    [str(e)]. *)
Definition handler (msg : string) : M (option result) :=
  if is_rate_limit msg then
    me ← get_self;
    print YELLOW
      ("Rate limit reached for API key "
         +:+ str_of_int (Z.of_nat (current_key_index me) + 1)
         +:+ ". Switching to next key.");;
    get_next_api_key;;
    mret None
  else
    print RED ("Error: " +:+ msg);;
    mret None.

(** The only [except] clause of the loop takes a [RequestException] and
    nothing else. *)
Definition on_error (e : exn) : option (M (option result)) :=
  match e with
  | RequestException msg => Some (handler msg)
  | _ => None
  end.

(** One iteration of the loop: [Some r] when it returns [r] from the
    function, [None] when the loop goes on. *)
Definition iteration (data : Data) : M (option result) :=
  try_except (r ← attempt data; mret (Some r)) on_error.

(** [for _ in range(n): ...] followed by the statements after the
    loop. *)
Fixpoint retry (n : nat) (data : Data) : M result :=
  match n with
  | 0 =>
      print RED MAX_RETRIES_TEXT;;
      mret (PyStr MAX_RETRIES_TEXT, false, PyStr "429 Too Many Requests")
  | S n' =>
      r ← iteration data;
      match r with
      | Some res => mret res
      | None => retry n' data
      end
  end.

(** [range(max_retries)] is empty for a [max_retries] below 1. *)
Definition dispatch (max_retries : Z) (data : Data) : M result :=
  retry (Z.to_nat max_retries) data.

(** A call of a method on the object [me] in the world [w]. *)
Definition call {A} (m : M A) (me : Node) (w : World) : (exn + A) * State :=
  m {| self := me; world := w; trace := [] |}.

(** The credential the next attempt sends. *)
Definition credential (me : Node) : option string :=
  api_keys me !! current_key_index me.

(** The request an attempt sends with the credential [k]. *)
Definition request_with (k : string) (data : Data) : Request :=
  {| url := URL; headers := [("Authorization", "Bearer " +:+ k)]; json := data |}.

(** How the [try] block ends on what [requests.post] gave: it returns, or it
    raises a [RequestException], which the [except] clause takes, or it
    raises something else, which nothing takes. *)
Inductive verdict : Type :=
| Returns (r : result)
| Caught (msg : string)
| Escapes (e : exn).

Definition verdict_of_exn (e : exn) : verdict :=
  match e with
  | RequestException msg => Caught msg
  | _ => Escapes e
  end.

Definition verdict_of (r : post_result) : verdict :=
  match r with
  | Failed msg => Caught msg
  | Answered response =>
      match raise_for_status response with
      | inl e => verdict_of_exn e
      | inr _ =>
          match json_of response with
          | inl e => verdict_of_exn e
          | inr js =>
              match first_choice_content js with
              | inl e => verdict_of_exn e
              | inr content =>
                  Returns (content, true, PyInt (status_code response))
              end
          end
      end
  end.

(** The next [n] attempts on the object [me] in the world [w] all end in a
    [RequestException], each with a text that satisfies [P]. *)
Fixpoint all_attempts (P : string → Prop) (n : nat) (data : Data)
    (me : Node) (w : World) : Prop :=
  match n with
  | 0 => True
  | S n' =>
      (∃ msg, (call (attempt data) me w).1 = inl (RequestException msg) ∧ P msg)
      ∧ let st := (call (iteration data) me w).2 in
        all_attempts P n' data (self st) (world st)
  end.

(** The state [st'] comes after [st] in a call that dispatches [data]: the
    pool and the presets are the same, a cursor that was an index of the
    pool still is one, and the trace has grown by events whose requests all
    carry [data] to [URL] under one credential of the pool. *)
Definition follows (data : Data) (st st' : State) : Prop :=
  api_keys (self st') = api_keys (self st)
  ∧ prompt_options (self st') = prompt_options (self st)
  ∧ (valid (self st) → valid (self st'))
  ∧ ∃ new, trace st' = trace st ++ new
      ∧ Forall (λ rq, ∃ k, k ∈ api_keys (self st) ∧ rq = request_with k data)
          (posts new).

Definition all_attempts_fail : nat → Data → Node → World → Prop :=
  all_attempts (λ _, True).

Definition all_attempts_rate_limited : nat → Data → Node → World → Prop :=
  all_attempts (λ msg, is_rate_limit msg = true).

End Effects.

End GroqNode.

(** ** [GroqAPILLM] ([nodes/groq_api_llm.py]) *)

Module GroqAPILLM.
Import Py Requests GroqNode.

Definition DEFAULT_PROMPT : string := "Use [system_message] and [user_input]".

(** Modelled from the spec: [get_prompt_content] of [utils/api_utils.py],
    which [groq_api_llm.py] imports and which is not among the sources.
    Spec 4.2: look up the preset in the PromptPreset mapping, returning
    empty string if absent (no error raised). *)
Definition get_prompt_content (prompt_options : gmap string string)
    (preset : string) : string :=
  default "" (prompt_options !! preset).

(** Lines 123-126: the system message the request is built with. *)
Definition resolve (me : Node) (preset system_message : string) : string :=
  if bool_decide (preset = DEFAULT_PROMPT) then system_message
  else get_prompt_content (prompt_options me) preset.

(** Lines 130-145: [messages] and [data]. *)
Definition build_data (model system_message user_input : string)
    (temperature : float) (max_tokens : Z) (top_p : float) (seed : Z)
    (stop : string) : Data :=
  let messages :=
    [ {| role := "system"; msg_content := Text system_message |};
      {| role := "user"; msg_content := Text user_input |} ] in
  {| model := model;
     messages := messages;
     temperature := temperature;
     max_tokens := max_tokens;
     top_p := top_p;
     seed := seed;
     stop := if truthy stop then Some stop else None |}.

Section Methods.
Context {World : Type}.
Variable post : World → Request → post_result * World.

#[local] Existing Instances M_ret M_bind.

(** [process_completion_request]; [json_mode] is not used by the
    method. *)
Definition process_completion_request
    (model preset system_message user_input : string)
    (temperature : float) (max_tokens : Z) (top_p : float) (seed : Z)
    (max_retries : Z) (stop : string) (json_mode : bool) : @M World result :=
  lift (seeding seed);;
  me ← get_self;
  let system_message := resolve me preset system_message in
  let data :=
    build_data model system_message user_input temperature max_tokens
      top_p seed stop in
  dispatch post max_retries data.

End Methods.

End GroqAPILLM.

(** ** [GroqAPIVLM] ([nodes/groq_api_vlm.py]) *)

Module GroqAPIVLM.
Import Py Requests GroqNode.

Definition DEFAULT_PROMPT : string := "Use [system_message] and [user_input]".

(** The static method [get_prompt_content]:
    [prompt_options.get(preset, "")]. *)
Definition get_prompt_content (prompt_options : gmap string string)
    (preset : string) : string :=
  default "" (prompt_options !! preset).

(** Lines 128-131: the system message the request is built with. *)
Definition resolve (me : Node) (preset system_message : string) : string :=
  if bool_decide (preset = DEFAULT_PROMPT) then system_message
  else get_prompt_content (prompt_options me) preset.

(** Lines 160-170: [data], from the [messages] built before. *)
Definition build_data (model : string) (messages : list message)
    (temperature : float) (max_tokens : Z) (top_p : float) (seed : Z)
    (stop : string) : Data :=
  {| model := model;
     messages := messages;
     temperature := temperature;
     max_tokens := max_tokens;
     top_p := top_p;
     seed := seed;
     stop := if truthy stop then Some stop else None |}.

Section Methods.
Context {World : Type}.
Variable post : World → Request → post_result * World.

(** [utils/image_utils.py] is not among the sources: tensors, PIL images
    and the two helpers are taken as they come.  [encode_image] gives the
    base64 text, or [None]. *)
Context {Tensor PIL : Type}.
Variable tensor_to_pil : Tensor → PIL.
Variable encode_image : PIL → option string.

(** The [image] argument: [None], a [torch.Tensor], or any other object. *)
Inductive image_arg : Type :=
| NoImage
| ImageTensor (t : Tensor)
| NotATensor (v : value).

(** Truth value of what [encode_image] returns. *)
Definition encoded (base64_image : option string) : bool :=
  match base64_image with
  | Some s => truthy s
  | None => false
  end.

(** Lines 140-152: the single message with the text and the image. *)
Definition image_message (system_message user_input base64_image : string)
  : message :=
  let combined_message := system_message +:+ NL +:+ user_input in
  {| role := "user";
     msg_content :=
       Parts [ TextPart combined_message;
               ImageUrlPart ("data:image/jpeg;base64," +:+ base64_image) ] |}.

#[local] Existing Instances M_ret M_bind.

(** Lines 135-158: [messages], or the early return. *)
Definition build_messages (image : image_arg)
    (system_message user_input : string) : @M World (result + list message) :=
  match image with
  | ImageTensor t =>
      let image_pil := tensor_to_pil t in
      let base64_image := encode_image image_pil in
      if encoded base64_image then
        mret (inr [image_message system_message user_input
                     (default "" base64_image)])
      else
        print RED "Failed to encode image.";;
        mret (inr [])
  | _ =>
      print RED "Image is required for VLM models.";;
      mret (inl (PyStr "Image is required for VLM models.", false,
                 PyStr "400 Bad Request"))
  end.

(** The [messages] lines 137-155 arrive at for a tensor. *)
Definition tensor_messages (t : Tensor) (system_message user_input : string)
  : list message :=
  match encode_image (tensor_to_pil t) with
  | Some base64_image =>
      if truthy base64_image
      then [image_message system_message user_input base64_image]
      else []
  | None => []
  end.

(** [process_completion_request]; [json_mode] is not used by the
    method. *)
Definition process_completion_request
    (model : string) (image : image_arg)
    (temperature : float) (max_tokens : Z) (top_p : float) (seed : Z)
    (max_retries : Z) (stop : string) (json_mode : bool)
    (preset system_message user_input : string) : @M World result :=
  lift (seeding seed);;
  me ← get_self;
  let system_message := resolve me preset system_message in
  r ← build_messages image system_message user_input;
  match r with
  | inl early => mret early
  | inr messages =>
      let data :=
        build_data model messages temperature max_tokens top_p seed stop in
      dispatch post max_retries data
  end.

End Methods.

End GroqAPIVLM.

(** ** An instance over its lifetime *)

Module Instance.
Import Py Requests GroqNode.

Section Calls.
Context {World : Type}.
Variable post : World → Request → post_result * World.
Context {Tensor PIL : Type}.
Variable tensor_to_pil : Tensor → PIL.
Variable encode_image : PIL → option string.

#[local] Existing Instances M_ret M_bind.

(** What is done to an instance once it is built: a rotation, or a
    completion request of its class, with any arguments. *)
Inductive operation : Type :=
| Rotate
| CompleteText (model preset system_message user_input : string)
    (temperature : float) (max_tokens : Z) (top_p : float) (seed : Z)
    (max_retries : Z) (stop : string) (json_mode : bool)
| CompleteVision (model : string) (image : @GroqAPIVLM.image_arg Tensor)
    (temperature : float) (max_tokens : Z) (top_p : float) (seed : Z)
    (max_retries : Z) (stop : string) (json_mode : bool)
    (preset system_message user_input : string).

Definition perform (op : operation) : @M World unit :=
  match op with
  | Rotate => get_next_api_key;; mret ()
  | CompleteText model preset system_message user_input temperature
      max_tokens top_p seed max_retries stop json_mode =>
      GroqAPILLM.process_completion_request post model preset
        system_message user_input temperature max_tokens top_p seed
        max_retries stop json_mode;;
      mret ()
  | CompleteVision model image temperature max_tokens top_p seed
      max_retries stop json_mode preset system_message user_input =>
      GroqAPIVLM.process_completion_request post tensor_to_pil
        encode_image model image temperature max_tokens top_p seed
        max_retries stop json_mode preset system_message user_input;;
      mret ()
  end.

(** The object and the world after the operations [ops], one after the
    other; an operation that raises leaves them as they were when it
    raised. *)
Fixpoint run (ops : list operation) (me : Node) (w : World) : Node * World :=
  match ops with
  | [] => (me, w)
  | op :: rest =>
      let st := (call (perform op) me w).2 in
      run rest (self st) (world st)
  end.

End Calls.

End Instance.

(** ** Services to run the nodes against *)

Module Scenario.
Import Py Requests GroqNode.

(** A service that gives the answers of a list, one per request, and
    refuses the connection once the list is used up. *)
Definition play (w : list post_result) (rq : Request)
  : post_result * list post_result :=
  match w with
  | [] => (Failed "Connection refused", [])
  | r :: w' => (r, w')
  end.

Definition answer (code : Z) (reason : string) (body : string + value)
  : post_result :=
  Answered {| status_code := code; reason := reason; resp_url := URL;
              body := body |}.

(** [{"choices": [{"message": {"role": "assistant", "content": text}}]}]. *)
Definition completion (text : string) : value :=
  PyDict [("choices",
           PyList [PyDict [("message",
                            PyDict [("role", PyStr "assistant");
                                    ("content", PyStr text)])]])].

(** No configuration file and no prompt file. *)
Definition no_files : Files :=
  {| groq_config := None; parent_groq_config := None;
     default_prompts := Missing; user_prompts := Missing |}.

(** The node built when no file is found: the placeholder credential. *)
Definition fallback : Node :=
  {| api_keys := ["default_api_key"]; current_key_index := 0;
     prompt_options := ∅ |}.

(** A node with three credentials and one preset. *)
Definition three_keys : Node :=
  {| api_keys := ["k1"; "k2"; "k3"]; current_key_index := 0;
     prompt_options := {["terse" := "Answer in one word."]} |}.

(** Tensors and images stand for themselves; [encode_image] gives the text
    it is handed, and fails on [None]. *)
Definition pil_of (t : option string) : option string := t.
Definition encode (i : option string) : option string := i.

(** A text completion request with the defaults of [INPUT_TYPES]. *)
Definition text_request (me : Node) (w : list post_result)
    (preset : string) (max_retries : Z) :=
  call (GroqAPILLM.process_completion_request play "llama3-8b-8192" preset
          "Be kind." "Hello" 0.5%float 1024 1%float 42 max_retries "" false)
    me w.

(** A vision completion request with the defaults of [INPUT_TYPES]. *)
Definition vision_request (me : Node) (w : list post_result)
    (image : GroqAPIVLM.image_arg) (max_retries : Z) :=
  call (GroqAPIVLM.process_completion_request play pil_of encode
          "llava-v1.5-7b-4096-preview" image 0.5%float 1024 1%float 42
          max_retries "" false GroqAPIVLM.DEFAULT_PROMPT "Be kind."
          "What is this?")
    me w.

End Scenario.

(** ** What a pool, a trace and a loop are measured by *)

Module Observe.
Import Py Requests GroqNode.

(** [s.count(c)] for a one-character [c]. *)
Fixpoint count (c : ascii) (s : string) : nat :=
  match s with
  | EmptyString => 0
  | String a s' => (if bool_decide (a = c) then 1 else 0) + count c s'
  end.

(** [sep.join(pieces)] for a one-character [sep]. *)
Fixpoint join (sep : ascii) (pieces : list string) : string :=
  match pieces with
  | [] => EmptyString
  | piece :: rest =>
      match rest with
      | [] => piece
      | _ :: _ => piece +:+ String sep (join sep rest)
      end
  end.

(** A string of white space only. *)
Fixpoint all_space (s : string) : bool :=
  match s with
  | EmptyString => true
  | String c s' => isspace c && all_space s'
  end.

(** A string with no white space at its first and at its last place. *)
Definition trimmed (s : string) : Prop :=
  (∀ c rest, s = String c rest → isspace c = false)
  ∧ (∀ front c, s = front +:+ String c EmptyString → isspace c = false).

(** The credentials that the text [value] of an option stands for: [value]
    is pieces with commas between them, none of which has a comma in it,
    and each credential is its piece without the white space before and
    after it. *)
Definition pool_of (value : string) (pool : list string) : Prop :=
  ∃ pieces,
    join "," pieces = value
    ∧ Forall (λ piece, count "," piece = 0) pieces
    ∧ Forall2 (λ piece k,
                 trimmed k
                 ∧ ∃ before after,
                     piece = before +:+ k +:+ after
                     ∧ all_space before = true ∧ all_space after = true)
        pieces pool.

(** The lines of a trace, in order. *)
Definition printed (tr : list event) : list (colour * string) :=
  omap (λ ev, match ev with Print c text => Some (c, text) | Post _ => None end)
    tr.

(** The lines printed in yellow: those of the rate-limit branch of the
    [except] clause, one per rotation. *)
Definition rate_limit_lines (tr : list event) : list string :=
  omap (λ ev, match ev with Print YELLOW text => Some text | _ => None end) tr.

(** The mapping [json.load] gives for a prompt file that is there and
    loads; a missing file adds nothing. *)
Definition mapping (f : prompt_file) : gmap string string :=
  match f with
  | Prompts m => m
  | Missing | Broken => ∅
  end.

Section Iterations.
Context {World : Type}.
Variable post : World → Request → post_result * World.

(** The state after [n] iterations of the loop. *)
Fixpoint after_iterations (n : nat) (data : Data) (st : State) : @State World :=
  match n with
  | 0 => st
  | S n' => after_iterations n' data (iteration post data st).2
  end.

(** Within the first [n] attempts from [st], after [j] attempts that all
    end in a request failure, the service answers the next one with a
    status that is no error and a JSON body in which the lookup of
    [choices[0].message.content] raises [e]. *)
Definition unexpected_answer (n : nat) (data : Data) (st : State) (e : exn)
  : Prop :=
  ∃ j k resp js,
    j < n
    ∧ all_attempts_fail post j data (self st) (world st)
    ∧ credential (self (after_iterations j data st)) = Some k
    ∧ (post (world (after_iterations j data st)) (request_with k data)).1 =
        Answered resp
    ∧ raise_for_status resp = inr ()
    ∧ body resp = inr js
    ∧ first_choice_content js = inl e.

End Iterations.

End Observe.

(** ** Files to build the nodes from *)

Module Fixtures.
Import Py Requests GroqNode.

(** [[API_KEYS]] with [groq_keys = gsk_one, gsk_two ,gsk_three]. *)
Definition three_keys_ini : ini :=
  {[ "API_KEYS" := {[ "groq_keys" := "gsk_one, gsk_two ,gsk_three" ]} ]}.

(** The text [gsk_one,] U+00A0 [gsk_two] U+0085: a no-break space before
    the second credential and a NEL after it. *)
Definition spaced_keys : string :=
  "gsk_one," +:+ String (Ascii.ascii_of_nat 160)
    ("gsk_two" +:+ String (Ascii.ascii_of_nat 133) EmptyString).

(** [[API_KEYS]] with [groq_keys] the text above. *)
Definition spaced_ini : ini := {[ "API_KEYS" := {[ "groq_keys" := spaced_keys ]} ]}.

Definition spaced : Files :=
  {| groq_config := Some spaced_ini; parent_groq_config := None;
     default_prompts := Missing; user_prompts := Missing |}.

(** [[API_KEYS]] with [groq_keys = gsk_parent]. *)
Definition parent_ini : ini :=
  {[ "API_KEYS" := {[ "groq_keys" := "gsk_parent" ]} ]}.

(** A file with another section only. *)
Definition other_ini : ini := {[ "PROXY" := {[ "host" := "localhost" ]} ]}.

(** [[API_KEYS]] with another option only. *)
Definition no_option_ini : ini :=
  {[ "API_KEYS" := {[ "openai_keys" := "sk_one" ]} ]}.

Definition default_presets : gmap string string :=
  {[ "terse" := "Answer in one word."; "poet" := "Answer in verse." ]}.

Definition user_presets : gmap string string :=
  {[ "terse" := "Answer briefly."; "pirate" := "Answer as a pirate." ]}.

Definition configured : Files :=
  {| groq_config := Some three_keys_ini; parent_groq_config := Some parent_ini;
     default_prompts := Prompts default_presets;
     user_prompts := Prompts user_presets |}.

Definition configured_above : Files :=
  {| groq_config := Some other_ini; parent_groq_config := Some parent_ini;
     default_prompts := Prompts default_presets; user_prompts := Missing |}.

Definition misconfigured : Files :=
  {| groq_config := Some no_option_ini; parent_groq_config := Some parent_ini;
     default_prompts := Prompts default_presets; user_prompts := Broken |}.

Definition unconfigured : Files :=
  {| groq_config := Some other_ini; parent_groq_config := None;
     default_prompts := Prompts default_presets; user_prompts := Broken |}.

End Fixtures.

(** * Properties *)

#[local] Arguments Nat.modulo : simpl never.

(** ** Strings *)

Module PyFacts.
Import Py.

Lemma startswith_spec (needle hay : string) :
  startswith needle hay = true ↔ ∃ rest, hay = needle +:+ rest.
Proof.
  revert hay; induction needle as [|a needle IH]; intros hay; simpl.
  - split; [eauto|done].
  - destruct hay as [|b hay].
    + split; [done|]. intros [rest Hrest]. discriminate.
    + rewrite andb_true_iff, bool_decide_eq_true, IH. split.
      * intros [-> [rest ->]]. by exists rest.
      * intros [rest [= -> ->]]. eauto.
Qed.

(** [contains] is the substring test: the needle sits between a prefix and
    a suffix of the haystack. *)
Lemma contains_spec (needle hay : string) :
  contains needle hay = true ↔ ∃ before after, hay = before +:+ needle +:+ after.
Proof.
  induction hay as [|c hay IH].
  - simpl. rewrite orb_false_r, startswith_spec. split.
    + intros [rest ->]. by exists "", rest.
    + intros [[|b before] [after Heq]]; [by exists after|discriminate].
  - cbn [contains]. rewrite orb_true_iff, startswith_spec, IH. split.
    + intros [[rest ->]|(before & after & ->)].
      * by exists "", rest.
      * by exists (String c before), after.
    + intros [[|b before] [after Heq]].
      * left. by exists after.
      * right. injection Heq as -> ->. by exists before, after.
Qed.

Example lower_mixed_case : lower "Rate LIMIT [429] @`{z" = "rate limit [429] @`{z".
Proof. reflexivity. Qed.

Example contains_inside : contains "rate limit" "groq: rate limit hit" = true.
Proof. reflexivity. Qed.

Example contains_split_words : contains "rate limit" "rate-limit; limit rate" = false.
Proof. reflexivity. Qed.

Example split_then_strip :
  strip <$> split "," " k1, k2 ,,k3 " = ["k1"; "k2"; ""; "k3"].
Proof. reflexivity. Qed.

Example split_empty : split "," "" = [""].
Proof. reflexivity. Qed.

Example getitem_last_char : getitem (PyStr "abc") (KInt (-1)) = inr (PyStr "c").
Proof. reflexivity. Qed.

Example getitem_empty_list : getitem (PyList []) (KInt 0) = inl IndexError.
Proof. reflexivity. Qed.

Example getitem_none : getitem PyNone (KStr "choices") = inl TypeError.
Proof. reflexivity. Qed.

(** [s.split(sep)] never gives an empty list. *)
Lemma split_length (sep : ascii) (s : string) : 0 < length (split sep s).
Proof.
  induction s as [|c s IH]; simpl; [lia|].
  case_bool_decide; simpl; [lia|].
  destruct (split sep s); simpl in *; lia.
Qed.

End PyFacts.

(** ** The retry loop *)

Module Dispatcher.
Import Py Requests GroqNode Observe.

(** The lookup into a JSON body raises no [RequestException]: what it
    raises is not taken by the [except] clause. *)
Lemma getitem_not_caught (v : value) (k : key) (e : exn) :
  getitem v k = inl e → verdict_of_exn e = Escapes e.
Proof.
  destruct v, k; simpl; repeat case_match; intros [= <-]; done.
Qed.

Lemma first_choice_content_not_caught (js : value) (e : exn) :
  first_choice_content js = inl e → verdict_of_exn e = Escapes e.
Proof.
  unfold first_choice_content.
  destruct (getitem js _) as [e1|v1] eqn:H1;
    [intros [= <-]; eauto using getitem_not_caught|].
  destruct (getitem v1 _) as [e2|v2] eqn:H2;
    [intros [= <-]; eauto using getitem_not_caught|].
  destruct (getitem v2 _) as [e3|v3] eqn:H3;
    [intros [= <-]; eauto using getitem_not_caught|].
  apply getitem_not_caught.
Qed.

Section Loop.
Context {World : Type}.
Variable post : World → Request → post_result * World.

#[local] Existing Instances M_ret M_bind.

Implicit Types (st : @State World) (data : Data) (me : Node).

(** The state once the request is out and the world has answered. *)
Lemma attempt_eq data st :
  attempt post data st =
    match credential (self st) with
    | None => (inl IndexError, st)
    | Some k =>
        let rq := request_with k data in
        let st1 := {| self := self st; world := (post (world st) rq).2;
                      trace := trace st ++ [Post rq] |} in
        match verdict_of (post (world st) rq).1 with
        | Returns r => (inr r, st1)
        | Caught msg => (inl (RequestException msg), st1)
        | Escapes e => (inl e, st1)
        end
    end.
Proof.
  unfold attempt, current_api_key, credential, get_self, requests_post,
    request_with, lift, mbind, M_bind, mret, M_ret, raise; simpl.
  destruct (api_keys (self st) !! current_key_index (self st)) as [k|];
    [|done]; simpl.
  destruct (post (world st) _) as [[msg|resp] w']; simpl; [done|].
  destruct (raise_for_status resp) as [e|[]] eqn:Hst; simpl.
  { unfold raise_for_status in Hst.
    repeat case_bool_decide; simplify_eq; done. }
  unfold json_of. destruct (body resp) as [msg|js]; simpl; [done|].
  destruct (first_choice_content js) as [e|c] eqn:Hc; simpl; [|done].
  rewrite (first_choice_content_not_caught _ _ Hc). done.
Qed.

(** What escapes the [try] block is not for the [except] clause. *)
Lemma escapes_not_handled (r : post_result) (e : exn) :
  verdict_of r = Escapes e → on_error (World:=World) e = None.
Proof.
  assert (∀ e', verdict_of_exn e' = Escapes e →
            on_error (World:=World) e = None) as Hexn.
  { intros e'. destruct e'; simpl; intros [= <-]; done. }
  unfold verdict_of. repeat case_match; eauto; done.
Qed.

(** One iteration: no credential under the cursor, or a request and then
    one of the three ways the [try] block ends. *)
Lemma iteration_eq data st :
  iteration post data st =
    match credential (self st) with
    | None => (inl IndexError, st)
    | Some k =>
        let rq := request_with k data in
        let st1 := {| self := self st; world := (post (world st) rq).2;
                      trace := trace st ++ [Post rq] |} in
        match verdict_of (post (world st) rq).1 with
        | Returns r => (inr (Some r), st1)
        | Caught msg => handler msg st1
        | Escapes e => (inl e, st1)
        end
    end.
Proof.
  unfold iteration, try_except, mbind, M_bind. rewrite attempt_eq.
  destruct (credential (self st)) as [k|]; [|done]; simpl.
  destruct (verdict_of _) as [r|msg|e] eqn:Hv; simpl; [done..|].
  by rewrite (escapes_not_handled _ _ Hv).
Qed.

(** The [except] clause on a pool that is not empty: one line is printed
    and the cursor moves on, around the pool, exactly when the text of the
    exception has the words. *)
Lemma handler_eq msg st :
  api_keys (self st) ≠ [] →
  handler (World:=World) msg st =
    (inr None,
     {| self :=
          {| api_keys := api_keys (self st);
             current_key_index :=
               if is_rate_limit msg
               then (current_key_index (self st) + 1)
                      `mod` length (api_keys (self st))
               else current_key_index (self st);
             prompt_options := prompt_options (self st) |};
        world := world st;
        trace :=
          trace st ++
          [if is_rate_limit msg
           then Print YELLOW
                  ("Rate limit reached for API key "
                     +:+ str_of_int (Z.of_nat (current_key_index (self st)) + 1)
                     +:+ ". Switching to next key.")
           else Print RED ("Error: " +:+ msg)] |}).
Proof.
  destruct st as [[keys idx opts] w tr]; simpl. intros Hkeys.
  unfold handler. destruct (is_rate_limit msg); [|done].
  unfold get_next_api_key, get_self, set_current_key_index, print, emit,
    mbind, M_bind, mret, M_ret, raise; simpl.
  destruct keys as [|k0 keys]; [done|].
  change (length (k0 :: keys)) with (S (length keys)). cbv iota beta.
  assert ((idx + 1) `mod` S (length keys) < length (k0 :: keys)) as Hlt.
  { simpl. apply Nat.mod_upper_bound. lia. }
  apply lookup_lt_is_Some_2 in Hlt as [k Hk].
  simpl in *. by rewrite Hk.
Qed.

Lemma credential_nonempty me k : credential me = Some k → api_keys me ≠ [].
Proof. unfold credential. intros Hk Hnil. by rewrite Hnil in Hk. Qed.

Lemma follows_refl data st : follows data st st.
Proof.
  repeat split; [done|]. exists []. by rewrite app_nil_r.
Qed.

Lemma follows_trans data st1 st2 st3 :
  follows data st1 st2 → follows data st2 st3 → follows data st1 st3.
Proof.
  intros (Hk1 & Hp1 & Hv1 & new1 & Ht1 & Hf1) (Hk2 & Hp2 & Hv2 & new2 & Ht2 & Hf2).
  repeat split; [congruence|congruence|tauto|].
  exists (new1 ++ new2). split; [by rewrite Ht2, Ht1, app_assoc|].
  unfold posts in *. rewrite omap_app, Forall_app. split; [done|].
  by rewrite <- Hk1.
Qed.

Lemma handler_follows data msg st :
  api_keys (self st) ≠ [] → follows data st (handler (World:=World) msg st).2.
Proof.
  intros Hkeys. rewrite (handler_eq msg st Hkeys); simpl.
  repeat split; [|by destruct (is_rate_limit msg); eexists [Print _ _]].
  unfold valid; simpl. intros Hv. destruct (is_rate_limit msg); [|done].
  apply Nat.mod_upper_bound. lia.
Qed.

Lemma iteration_follows data st :
  follows data st (iteration post data st).2.
Proof.
  rewrite iteration_eq.
  destruct (credential (self st)) as [k|] eqn:Hk; [|apply follows_refl].
  cbv zeta.
  set (rq := request_with k data).
  set (st1 := {| self := self st; world := _; trace := _ |}).
  assert (follows data st st1) as Hst1.
  { repeat split; [done|]. exists [Post rq]. split; [done|].
    repeat constructor. exists k. split; [|done].
    by apply list_elem_of_lookup_2 in Hk. }
  destruct (verdict_of _); simpl; [done| |done].
  eapply follows_trans; [done|]. apply handler_follows.
  simpl. intros Hnil. unfold credential in Hk. by rewrite Hnil in Hk.
Qed.

Lemma retry_follows n data st : follows data st (retry post n data st).2.
Proof.
  revert st; induction n as [|n IH]; intros st.
  - simpl. repeat split; [done|]. by exists [Print RED MAX_RETRIES_TEXT].
  - cbn [retry]. unfold mbind, M_bind.
    pose proof (iteration_follows data st) as Hit.
    destruct (iteration post data st) as [[e|[r|]] st']; simpl in *; [done..|].
    eapply follows_trans; [done|apply IH].
Qed.

(** Attempts and iterations do not read the trace: they add to it. *)
Lemma attempt_oblivious data st :
  attempt post data st =
    let res := call (attempt post data) (self st) (world st) in
    (res.1, {| self := self res.2; world := world res.2;
               trace := trace st ++ trace res.2 |}).
Proof.
  unfold call. rewrite !attempt_eq. destruct st as [me w tr]; simpl.
  destruct (credential me) as [k|]; simpl; [|by rewrite app_nil_r].
  by destruct (verdict_of _).
Qed.

Lemma iteration_oblivious data st :
  iteration post data st =
    let res := call (iteration post data) (self st) (world st) in
    (res.1, {| self := self res.2; world := world res.2;
               trace := trace st ++ trace res.2 |}).
Proof.
  unfold call. rewrite !iteration_eq. destruct st as [me w tr]; simpl.
  destruct (credential me) as [k|] eqn:Hk; simpl; [|by rewrite app_nil_r].
  apply credential_nonempty in Hk.
  destruct (verdict_of _); [done| |done].
  rewrite !handler_eq by done. simpl. by rewrite <- app_assoc.
Qed.

(** An attempt that ends in a [RequestException] is followed by the next
    iteration, in the state the [except] clause leaves. *)
Lemma failed_attempt_continues data st msg :
  (attempt post data st).1 = inl (RequestException msg) →
  ∃ k, credential (self st) = Some k
    ∧ iteration post data st =
        handler msg {| self := self st;
                       world := (post (world st) (request_with k data)).2;
                       trace := trace st ++ [Post (request_with k data)] |}.
Proof.
  rewrite iteration_eq, attempt_eq.
  destruct (credential (self st)) as [k|] eqn:Hk; [|done]. cbv zeta.
  destruct (verdict_of _) as [r|msg'|e] eqn:Hv; simpl; [done| |].
  - intros [= ->]. by exists k.
  - intros [= ->]. by apply escapes_not_handled in Hv.
Qed.

Lemma failed_attempt_goes_on data st msg :
  (attempt post data st).1 = inl (RequestException msg) →
  (iteration post data st).1 = inr None.
Proof.
  intros Hmsg.
  destruct (failed_attempt_continues _ _ _ Hmsg) as (k & Hk & ->).
  apply credential_nonempty in Hk. by rewrite handler_eq.
Qed.

(** When the loop runs out, the fixed result is what the call returns. *)
Lemma retry_exhausted P n data st :
  all_attempts post P n data (self st) (world st) →
  (retry post n data st).1 =
    inr (PyStr MAX_RETRIES_TEXT, false, PyStr "429 Too Many Requests").
Proof.
  revert st; induction n as [|n IH]; intros st; [done|].
  intros [(msg & Hmsg & _) Hrest]. cbn [retry]. unfold mbind, M_bind.
  assert ((attempt post data st).1 = inl (RequestException msg)) as Hmsg'
    by by rewrite attempt_oblivious.
  apply failed_attempt_goes_on in Hmsg'.
  rewrite iteration_oblivious in Hmsg' |- *. cbv zeta in *. simpl in *.
  destruct (call (iteration post data) (self st) (world st)) as [[e|[r|]] st'];
    simpl in *; [done..|].
  by apply IH.
Qed.

Lemma valid_credential me : valid me → ∃ k, credential me = Some k.
Proof. intros Hv. by apply lookup_lt_is_Some_2 in Hv as [k Hk]; exists k. Qed.

(** What escapes the [try] block comes from the lookup of
    [choices[0].message.content] in the JSON body of an answer whose status
    is no error. *)
Lemma escapes_inv (r : post_result) (e : exn) :
  verdict_of r = Escapes e →
  ∃ resp js, r = Answered resp ∧ raise_for_status resp = inr ()
    ∧ body resp = inr js ∧ first_choice_content js = inl e.
Proof.
  destruct r as [msg|resp]; simpl; [done|].
  destruct (raise_for_status resp) as [e'|[]] eqn:Hst.
  { unfold raise_for_status in Hst. repeat case_bool_decide; by simplify_eq. }
  unfold json_of. destruct (body resp) as [msg|js] eqn:Hb; simpl; [done|].
  destruct (first_choice_content js) as [e'|c] eqn:Hc; [|done].
  rewrite (first_choice_content_not_caught _ _ Hc). intros [= ->].
  by exists resp, js.
Qed.

(** With the cursor on the pool, the loop raises only what escaped the
    [try] block of one of its attempts. *)
Lemma retry_raises n data st e :
  valid (self st) →
  (retry post n data st).1 = inl e →
  ∃ w rq, verdict_of (post w rq).1 = Escapes e.
Proof.
  revert st; induction n as [|n IH]; intros st Hv; [done|].
  cbn [retry]. unfold mbind, M_bind.
  pose proof (iteration_follows data st) as (_ & _ & Hv' & _).
  specialize (Hv' Hv). revert Hv'. rewrite iteration_eq.
  destruct (valid_credential _ Hv) as [k Hk]. rewrite Hk. cbv zeta.
  destruct (verdict_of _) as [r|msg|e'] eqn:Hverdict; simpl.
  - done.
  - rewrite handler_eq by (simpl; by eapply credential_nonempty).
    simpl. intros Hv'. by apply IH.
  - intros _ [= ->]. eauto.
Qed.

(** What the [try] block returns has the flag True and an [int] for
    status code. *)
Lemma returns_inv (r : post_result) (res : result) :
  verdict_of r = Returns res →
  ∃ content code, res = (content, true, PyInt code).
Proof.
  assert (∀ e, verdict_of_exn e ≠ Returns res) as Hexn by by intros [].
  destruct r as [msg|resp]; simpl; [done|].
  destruct (raise_for_status resp); [intros H; by apply Hexn in H|].
  destruct (json_of resp) as [e|js]; [intros H; by apply Hexn in H|].
  destruct (first_choice_content js) as [e|content];
    [intros H; by apply Hexn in H|].
  intros [= <-]. eauto.
Qed.

(** The loop returns what one of its attempts returned, or the fixed
    result after the last one. *)
Lemma retry_returns n data st res :
  (retry post n data st).1 = inr res →
  res = (PyStr MAX_RETRIES_TEXT, false, PyStr "429 Too Many Requests")
  ∨ ∃ content code, res = (content, true, PyInt code).
Proof.
  revert st; induction n as [|n IH]; intros st.
  - simpl. intros [= <-]. by left.
  - cbn [retry]. unfold mbind, M_bind. rewrite iteration_eq.
    destruct (credential (self st)) as [k|]; [|done]. cbv zeta.
    destruct (verdict_of _) as [r|msg|e] eqn:Hverdict; simpl.
    + intros [= <-]. right. by eapply returns_inv.
    + destruct (handler msg _) as [[e|[r|]] st'] eqn:Hh; simpl; [done| |apply IH].
      unfold handler, get_next_api_key, get_self, set_current_key_index,
        print, emit, raise, mbind, M_bind, mret, M_ret in Hh.
      simpl in Hh. repeat case_match; simplify_eq.
    + done.
Qed.

(** The first iteration that returns ends the loop. *)
Lemma retry_returns_at_once n data st k r :
  credential (self st) = Some k →
  verdict_of (post (world st) (request_with k data)).1 = Returns r →
  retry post (S n) data st =
    (inr r, {| self := self st;
               world := (post (world st) (request_with k data)).2;
               trace := trace st ++ [Post (request_with k data)] |}).
Proof.
  intros Hk Hr. cbn [retry]. unfold mbind, M_bind.
  by rewrite iteration_eq, Hk; cbv zeta; rewrite Hr.
Qed.

(** A loop of at least one iteration, with the cursor on the pool, sends
    its first request with the credential under the cursor. *)
Lemma retry_first_post n data st k :
  credential (self st) = Some k →
  ∃ later,
    posts (trace (retry post (S n) data st).2) =
      posts (trace st) ++ request_with k data :: later.
Proof.
  intros Hk. cbn [retry]. unfold mbind, M_bind.
  set (st1 := {| self := self st;
                 world := (post (world st) (request_with k data)).2;
                 trace := trace st ++ [Post (request_with k data)] |}).
  assert (∀ st3, follows data st1 st3 →
            ∃ later, posts (trace st3) =
              posts (trace st) ++ request_with k data :: later) as Hposts.
  { intros st3 (_ & _ & _ & new & -> & _). exists (posts new).
    unfold st1, posts; simpl. by rewrite !omap_app, <- app_assoc. }
  assert (follows data st1 (iteration post data st).2) as Hit1.
  { rewrite iteration_eq, Hk. cbv zeta. fold st1.
    destruct (verdict_of _); simpl; eauto using follows_refl.
    apply handler_follows. simpl. by eapply credential_nonempty. }
  destruct (iteration post data st) as [[e|[r|]] st'] eqn:Heq; simpl in *;
    [by apply Hposts..|].
  apply Hposts. eapply follows_trans; [done|]. apply retry_follows.
Qed.

(** Under rate-limit failures the cursor goes once around the pool per
    [length (api_keys me)] attempts. *)
Lemma retry_rate_limited n data st :
  valid (self st) →
  all_attempts_rate_limited post n data (self st) (world st) →
  current_key_index (self (retry post n data st).2) =
    (current_key_index (self st) + n) `mod` length (api_keys (self st)).
Proof.
  revert st; induction n as [|n IH]; intros st Hv.
  - intros _. simpl. rewrite Nat.add_0_r, Nat.mod_small; done.
  - intros [(msg & Hmsg & Hrl) Hrest]. cbn [retry]. unfold mbind, M_bind.
    assert ((attempt post data st).1 = inl (RequestException msg)) as Hmsg'
      by by rewrite attempt_oblivious.
    destruct (failed_attempt_continues _ _ _ Hmsg') as (k & Hk & Heq).
    revert Hrest. cbv zeta.
    assert (self (call (iteration post data) (self st) (world st)).2 =
              self (iteration post data st).2
            ∧ world (call (iteration post data) (self st) (world st)).2 =
              world (iteration post data st).2) as [-> ->]
      by by rewrite (iteration_oblivious data st).
    rewrite Heq, handler_eq by (simpl; by eapply credential_nonempty).
    rewrite Hrl. simpl. intros Hrest.
    rewrite IH; simpl.
    + rewrite Nat.Div0.add_mod_idemp_l. f_equal. lia.
    + unfold valid; simpl. apply Nat.mod_upper_bound. unfold valid in Hv. lia.
    + done.
Qed.

(** After [j] attempts that fail, an attempt that does not end in a
    request failure ends the loop: the loop returns what the attempt
    returns, or raises what it raises, in the state the attempt leaves. *)
Lemma retry_ends_with_attempt j n data st :
  j < n →
  all_attempts_fail post j data (self st) (world st) →
  (∀ msg, (attempt post data (after_iterations post j data st)).1 ≠
            inl (RequestException msg)) →
  retry post n data st = attempt post data (after_iterations post j data st).
Proof.
  revert n st; induction j as [|j IH]; intros n st Hjn.
  - intros _ Hres. destruct n as [|n]; [lia|]. simpl in Hres.
    cbn [retry after_iterations]. unfold mbind, M_bind.
    revert Hres. rewrite iteration_eq, attempt_eq.
    destruct (credential (self st)) as [k|]; [|done]. cbv zeta.
    destruct (verdict_of _) as [r|msg|e]; simpl; [done| |done].
    intros Hres. by destruct (Hres msg).
  - intros [(msg & Hmsg & _) Hrest] Hres. destruct n as [|n]; [lia|].
    cbn [retry after_iterations] in *. unfold mbind, M_bind.
    assert ((attempt post data st).1 = inl (RequestException msg)) as Hmsg'
      by by rewrite attempt_oblivious.
    pose proof (failed_attempt_goes_on _ _ _ Hmsg') as Hnone.
    revert Hrest. cbv zeta.
    assert (self (call (iteration post data) (self st) (world st)).2 =
              self (iteration post data st).2
            ∧ world (call (iteration post data) (self st) (world st)).2 =
              world (iteration post data st).2) as [-> ->]
      by by rewrite (iteration_oblivious data st).
    intros Hrest.
    destruct (iteration post data st) as [[e|[r|]] st'] eqn:Hit;
      simpl in *; [done..|].
    apply IH; [lia|done|done].
Qed.

(** The lookup raises a [KeyError], an [IndexError] or a [TypeError]. *)
Lemma getitem_error (v : value) (k : key) (e : exn) :
  getitem v k = inl e → (∃ k', e = KeyError k') ∨ e = IndexError ∨ e = TypeError.
Proof.
  destruct v, k; simpl; repeat case_match; intros [= <-]; eauto.
Qed.

Lemma first_choice_content_error (js : value) (e : exn) :
  first_choice_content js = inl e →
  (∃ k, e = KeyError k) ∨ e = IndexError ∨ e = TypeError.
Proof.
  unfold first_choice_content.
  destruct (getitem js _) as [e1|v1] eqn:H1;
    [intros [= <-]; eauto using getitem_error|].
  destruct (getitem v1 _) as [e2|v2] eqn:H2;
    [intros [= <-]; eauto using getitem_error|].
  destruct (getitem v2 _) as [e3|v3] eqn:H3;
    [intros [= <-]; eauto using getitem_error|].
  apply getitem_error.
Qed.

(** With the cursor on the pool, what the loop raises is the exception of
    the lookup in an answer that one of its attempts got, after attempts
    that all failed. *)
Lemma retry_raises_inv n data st e :
  valid (self st) →
  (retry post n data st).1 = inl e →
  unexpected_answer post n data st e.
Proof.
  revert st; induction n as [|n IH]; intros st Hv; [done|].
  cbn [retry]. unfold mbind, M_bind.
  pose proof (iteration_follows data st) as (_ & _ & Hv' & _).
  specialize (Hv' Hv).
  destruct (valid_credential _ Hv) as [k Hk].
  pose proof (attempt_eq data st) as Hattempt.
  pose proof (attempt_oblivious data st) as Hobl.
  pose proof (iteration_oblivious data st) as Hiobl.
  revert Hv' Hiobl. rewrite iteration_eq. rewrite Hk in Hattempt |- *.
  cbv zeta in *.
  destruct (verdict_of _) as [r|msg|e'] eqn:Hverdict; simpl.
  - done.
  - rewrite handler_eq by (simpl; by eapply credential_nonempty).
    simpl. intros Hv' Hiobl Hres.
    match type of Hres with context [retry post n data ?s] =>
      destruct (IH s Hv' Hres)
        as (j & k' & resp & js & Hj & Hfail & Hk' & Hpost & Hst & Hb & Hc);
      set (st2 := s) in *
    end.
    assert (self (call (iteration post data) (self st) (world st)).2 = self st2
            ∧ world (call (iteration post data) (self st) (world st)).2 =
              world st2) as [Hself Hworld].
    { injection Hiobl as Hr Hs. by rewrite <- Hs. }
    exists (S j), k', resp, js.
    assert (after_iterations post (S j) data st =
              after_iterations post j data st2) as ->.
    { cbn [after_iterations]. rewrite iteration_eq, Hk. cbv zeta.
      rewrite Hverdict.
      by rewrite handler_eq by (simpl; by eapply credential_nonempty). }
    split_and!; [lia| |done..].
    split.
    + exists msg. split; [|done]. rewrite Hobl in Hattempt.
      by injection Hattempt as ->.
    + cbv zeta. by rewrite Hself, Hworld.
  - intros _ _ [= ->].
    apply escapes_inv in Hverdict as (resp & js & Hpost & Hst & Hb & Hc).
    exists 0, k, resp, js. by split_and!; [lia|..].
Qed.

(** Conversely an answer of that kind, in an attempt of the loop, makes the
    loop raise the exception of the lookup. *)
Lemma unexpected_answer_raises n data st e :
  unexpected_answer post n data st e → (retry post n data st).1 = inl e.
Proof.
  intros (j & k & resp & js & Hj & Hfail & Hk & Hpost & Hst & Hb & Hc).
  assert ((attempt post data (after_iterations post j data st)).1 = inl e)
    as Hattempt.
  { rewrite attempt_eq, Hk. cbv zeta. rewrite Hpost. simpl.
    unfold json_of. rewrite Hst, Hb, Hc.
    by rewrite (first_choice_content_not_caught _ _ Hc). }
  rewrite (retry_ends_with_attempt j n data st); [done..|].
  intros msg. rewrite Hattempt. intros [= ->].
  by pose proof (first_choice_content_not_caught _ _ Hc).
Qed.

End Loop.

End Dispatcher.

(** ** The two [process_completion_request] methods *)

Module Methods.
Import Py Requests GroqNode Dispatcher.

Section Facts.
Context {World : Type}.
Variable post : World → Request → post_result * World.
Context {Tensor PIL : Type}.
Variable tensor_to_pil : Tensor → PIL.
Variable encode_image : PIL → option string.

#[local] Existing Instances M_ret M_bind.

(** The seeds the three generators all take are those of the range the
    nodes declare for [seed]. *)
Lemma seeding_in_range (seed : Z) :
  (0 ≤ seed < 2 ^ 32)%Z → seeding seed = inr ().
Proof.
  intros Hseed. unfold seeding.
  rewrite (bool_decide_eq_true_2 (- 2 ^ 63 ≤ seed < 2 ^ 64)%Z) by lia.
  by rewrite (bool_decide_eq_true_2 (0 ≤ seed < 2 ^ 32)%Z).
Qed.

Lemma seeding_out_of_range (seed : Z) :
  ¬ (0 ≤ seed < 2 ^ 32)%Z →
  seeding seed = inl ValueError ∨ seeding seed = inl RuntimeError.
Proof.
  intros Hseed. unfold seeding.
  destruct (bool_decide (- 2 ^ 63 ≤ seed < 2 ^ 64)%Z); simpl; [|by right].
  by rewrite (bool_decide_eq_false_2 (0 ≤ seed < 2 ^ 32)%Z); [left|].
Qed.

(** The text node seeds the generators, builds its data and enters the
    loop. *)
Lemma text_request_eq model preset system_message user_input temperature
    max_tokens top_p seed max_retries stop json_mode (st : @State World) :
  GroqAPILLM.process_completion_request post model preset system_message
    user_input temperature max_tokens top_p seed max_retries stop json_mode st =
  match seeding seed with
  | inl e => (inl e, st)
  | inr _ =>
      retry post (Z.to_nat max_retries)
        (GroqAPILLM.build_data model
           (GroqAPILLM.resolve (self st) preset system_message) user_input
           temperature max_tokens top_p seed stop) st
  end.
Proof.
  unfold GroqAPILLM.process_completion_request, lift, mbind, M_bind.
  by destruct (seeding seed).
Qed.

(** The vision node, given a tensor, seeds the generators, builds its data,
    prints a line when the image could not be encoded, and enters the
    loop. *)
Lemma vision_request_eq model t temperature max_tokens top_p seed max_retries
    stop json_mode preset system_message user_input (st : @State World) :
  GroqAPIVLM.process_completion_request post tensor_to_pil encode_image model
    (GroqAPIVLM.ImageTensor t) temperature max_tokens top_p seed max_retries
    stop json_mode preset system_message user_input st =
  match seeding seed with
  | inl e => (inl e, st)
  | inr _ =>
      retry post (Z.to_nat max_retries)
        (GroqAPIVLM.build_data model
           (GroqAPIVLM.tensor_messages tensor_to_pil encode_image t
              (GroqAPIVLM.resolve (self st) preset system_message) user_input)
           temperature max_tokens top_p seed stop)
        {| self := self st; world := world st;
           trace :=
             trace st ++
             if GroqAPIVLM.encoded (encode_image (tensor_to_pil t)) then []
             else [Print RED "Failed to encode image."] |}
  end.
Proof.
  unfold GroqAPIVLM.process_completion_request, GroqAPIVLM.build_messages,
    GroqAPIVLM.tensor_messages, GroqAPIVLM.encoded, dispatch, get_self, print,
    emit, lift, mbind, M_bind, mret, M_ret.
  destruct (seeding seed); [done|].
  destruct st as [me w tr]; simpl.
  destruct (encode_image (tensor_to_pil t)) as [s|]; simpl; [|done].
  destruct (truthy s); simpl; [|done]. by rewrite app_nil_r.
Qed.

(** The vision node without a tensor: the seeding and the early return. *)
Lemma vision_request_no_tensor model image temperature max_tokens top_p seed
    max_retries stop json_mode preset system_message user_input
    (st : @State World) :
  (∀ t, image ≠ GroqAPIVLM.ImageTensor t) →
  GroqAPIVLM.process_completion_request post tensor_to_pil encode_image model
    image temperature max_tokens top_p seed max_retries
    stop json_mode preset system_message user_input st =
  match seeding seed with
  | inl e => (inl e, st)
  | inr _ =>
      (inr (PyStr "Image is required for VLM models.", false,
            PyStr "400 Bad Request"),
       {| self := self st; world := world st;
          trace := trace st ++ [Print RED "Image is required for VLM models."] |})
  end.
Proof.
  intros Himg.
  unfold GroqAPIVLM.process_completion_request, lift, mbind, M_bind.
  destruct (seeding seed); [done|].
  by destruct image as [|t|v]; [|destruct (Himg t)|].
Qed.

(** A call of the text node keeps the pool and a cursor on the pool, and
    sends nothing but its data. *)
Lemma text_request_follows model preset system_message user_input temperature
    max_tokens top_p seed max_retries stop json_mode (st : @State World) :
  follows
    (GroqAPILLM.build_data model
       (GroqAPILLM.resolve (self st) preset system_message) user_input
       temperature max_tokens top_p seed stop)
    st
    (GroqAPILLM.process_completion_request post model preset system_message
       user_input temperature max_tokens top_p seed max_retries stop
       json_mode st).2.
Proof.
  rewrite text_request_eq.
  destruct (seeding seed); [apply follows_refl|apply retry_follows].
Qed.

(** The same of the vision node, for some list of messages. *)
Lemma vision_request_follows model image temperature max_tokens top_p seed
    max_retries stop json_mode preset system_message user_input
    (st : @State World) :
  ∃ messages,
    follows
      (GroqAPIVLM.build_data model messages temperature max_tokens top_p seed
         stop)
      st
      (GroqAPIVLM.process_completion_request post tensor_to_pil encode_image
         model image temperature max_tokens top_p seed max_retries stop
         json_mode preset system_message user_input st).2.
Proof.
  assert (∀ data c text,
            follows data st
              {| self := self st; world := world st;
                 trace := trace st ++ [Print c text] |}) as Hprint.
  { intros. repeat split; [done|]. by eexists [Print _ _]. }
  destruct image as [|t|v].
  - exists []. rewrite vision_request_no_tensor by done.
    destruct (seeding seed); [apply follows_refl|apply Hprint].
  - eexists. rewrite vision_request_eq.
    destruct (seeding seed); [apply follows_refl|].
    eapply follows_trans; [|apply retry_follows].
    destruct (GroqAPIVLM.encoded _); [|apply Hprint].
    rewrite app_nil_r. destruct st. apply follows_refl.
  - exists []. rewrite vision_request_no_tensor by done.
    destruct (seeding seed); [apply follows_refl|apply Hprint].
Qed.

(** [get_next_api_key] keeps the pool and leaves the cursor on it. *)
Lemma get_next_api_key_valid (st : @State World) :
  api_keys (self (get_next_api_key st).2) = api_keys (self st)
  ∧ (valid (self st) → valid (self (get_next_api_key st).2)).
Proof.
  destruct st as [[keys idx opts] w tr].
  unfold get_next_api_key, get_self, set_current_key_index, raise, valid,
    mbind, M_bind, mret, M_ret; simpl.
  destruct keys as [|k0 keys]; [done|].
  change (length (k0 :: keys)) with (S (length keys)). cbv iota beta.
  assert ((idx + 1) `mod` S (length keys) < length (k0 :: keys)) as Hlt.
  { simpl. apply Nat.mod_upper_bound. lia. }
  destruct (lookup_lt_is_Some_2 _ _ Hlt) as [k Hk].
  simpl in *. by rewrite Hk.
Qed.

(** Every operation keeps the pool and a cursor on the pool. *)
Lemma perform_valid (op : Instance.operation) (st : @State World) :
  let st' := (Instance.perform post tensor_to_pil encode_image op st).2 in
  api_keys (self st') = api_keys (self st)
  ∧ (valid (self st) → valid (self st')).
Proof.
  assert (∀ A (m : M A) (s : @State World), ((m;; mret ()) s).2 = (m s).2)
    as Hdrop.
  { intros A m s. unfold mbind, M_bind. by destruct (m s) as [[e|a] s']. }
  destruct op; cbn [Instance.perform]; cbv zeta; rewrite Hdrop.
  - apply get_next_api_key_valid.
  - edestruct text_request_follows as (Hk & _ & Hv & _). split; [apply Hk|apply Hv].
  - edestruct vision_request_follows as (ms & Hk & _ & Hv & _).
    split; [apply Hk|apply Hv].
Qed.

Lemma run_valid (ops : list Instance.operation) (me : Node) (w : World) :
  let me' := (Instance.run post tensor_to_pil encode_image ops me w).1 in
  api_keys me' = api_keys me ∧ (valid me → valid me').
Proof.
  revert me w; induction ops as [|op ops IH]; intros me w; [done|].
  cbn [Instance.run]. cbv zeta.
  destruct (perform_valid op {| self := me; world := w; trace := [] |})
    as [Hk Hv].
  destruct (IH (self (call (Instance.perform post tensor_to_pil encode_image op) me w).2)
              (world (call (Instance.perform post tensor_to_pil encode_image op) me w).2))
    as [Hk' Hv'].
  unfold call in *. simpl in *. split; [congruence|tauto].
Qed.

End Facts.

(** A node that the constructor has built has its cursor on the first
    credential of a pool that is not empty. *)
Lemma load_api_keys_from_length paths config keys :
  load_api_keys_from paths config = inr keys → 0 < length keys.
Proof.
  revert config; induction paths as [|[file|] paths IH]; intros config; simpl.
  - intros [= <-]. simpl. lia.
  - destruct (config_read file config !! "API_KEYS") as [section|]; [|apply IH].
    destruct (section !! "groq_keys") as [text|]; [|done].
    intros [= <-]. rewrite length_fmap. apply PyFacts.split_length.
  - apply IH.
Qed.

Lemma init_valid (fs : Files) (me : Node) : init fs = inr me → valid me.
Proof.
  unfold init, load_api_keys, valid.
  destruct (load_api_keys_from _ _) as [e|keys] eqn:Hkeys; [done|].
  intros [= <-]. simpl. by eapply load_api_keys_from_length.
Qed.

End Methods.

(** ** The claims of the specification *)

Section Claims.
Import Py Requests GroqNode Observe Dispatcher Methods.

Context {World : Type}.
Variable post : World → Request → post_result * World.
Context {Tensor PIL : Type}.
Variable tensor_to_pil : Tensor → PIL.
Variable encode_image : PIL → option string.

(** The object, the world, and the arguments of a call. *)
Variables (me : Node) (w : World).
Variables (model preset system_message user_input : string).
Variables (temperature top_p : float) (max_tokens seed max_retries : Z).
Variables (stop : string) (json_mode : bool).
Variable t : Tensor.

Local Abbreviation text_request :=
  (GroqAPILLM.process_completion_request post model preset system_message
     user_input temperature max_tokens top_p seed max_retries stop json_mode).
Local Abbreviation vision_request image :=
  (GroqAPIVLM.process_completion_request post tensor_to_pil encode_image
     model image temperature max_tokens top_p seed max_retries stop json_mode
     preset system_message user_input).
Local Abbreviation text_data :=
  (GroqAPILLM.build_data model (GroqAPILLM.resolve me preset system_message)
     user_input temperature max_tokens top_p seed stop).
Local Abbreviation vision_data :=
  (GroqAPIVLM.build_data model
     (GroqAPIVLM.tensor_messages tensor_to_pil encode_image t
        (GroqAPIVLM.resolve me preset system_message) user_input)
     temperature max_tokens top_p seed stop).
Local Abbreviation tensor := (GroqAPIVLM.ImageTensor t).
Local Abbreviation start := {| self := me; world := w; trace := [] |}.
Local Abbreviation vision_start :=
  {| self := me; world := w;
     trace := if GroqAPIVLM.encoded (encode_image (tensor_to_pil t)) then []
              else [Print RED "Failed to encode image."] |}.

(** C1.  For a seed of the range the nodes declare, 0 .. 2**32-1: when
    every one of the [max_retries] attempts of a call ends in a
    request failure, the call returns the triple
    ("Max retries reached. Unable to complete the request.", False,
    "429 Too Many Requests"), in the text node and in the vision node, and
    whatever the failures were: nothing is asked of their texts.  When they
    are all rate-limit failures, the cursor has moved by [max_retries]
    places around the pool. *)
Theorem max_retries_reached :
  (0 ≤ seed < 2 ^ 32)%Z →
  (all_attempts_fail post (Z.to_nat max_retries) text_data me w →
   (call text_request me w).1 =
     inr (PyStr "Max retries reached. Unable to complete the request.",
          false, PyStr "429 Too Many Requests"))
  ∧ (all_attempts_fail post (Z.to_nat max_retries) vision_data me w →
     (call (vision_request tensor) me w).1 =
       inr (PyStr "Max retries reached. Unable to complete the request.",
            false, PyStr "429 Too Many Requests"))
  ∧ (valid me →
     all_attempts_rate_limited post (Z.to_nat max_retries) text_data me w →
     current_key_index (self (call text_request me w).2) =
       (current_key_index me + Z.to_nat max_retries)
         `mod` length (api_keys me))
  ∧ (valid me →
     all_attempts_rate_limited post (Z.to_nat max_retries) vision_data me w →
     current_key_index (self (call (vision_request tensor) me w).2) =
       (current_key_index me + Z.to_nat max_retries)
         `mod` length (api_keys me)).
Proof.
  intros Hseed.
  unfold call. rewrite text_request_eq, vision_request_eq.
  rewrite seeding_in_range by done. simpl.
  repeat split.
  - apply (retry_exhausted post _ _ _ {| self := me |}).
  - apply (retry_exhausted post _ _ _ {| self := me |}).
  - apply (retry_rate_limited post _ _ {| self := me |}).
  - apply (retry_rate_limited post _ _ {| self := me |}).
Qed.

(** C2.  A dispatch attempt that fails, with a request failure of the text
    [msg], is followed by the next iteration, and the cursor has moved by
    one place around the pool when the lower-cased [msg] has the words
    "rate limit" in it, and has not moved otherwise, so that the next
    attempt sends the same credential; over a pool of two credentials or
    more the cursor has changed exactly in the first case.  An attempt
    sends the credential under the cursor. *)
Theorem rotation_on_rate_limit (data : Data) (msg : string) :
  (call (attempt post data) me w).1 = inl (RequestException msg) →
  (call (iteration post data) me w).1 = inr None
  ∧ api_keys (self (call (iteration post data) me w).2) = api_keys me
  ∧ ((∃ before after, lower msg = before +:+ "rate limit" +:+ after) →
     current_key_index (self (call (iteration post data) me w).2) =
       (current_key_index me + 1) `mod` length (api_keys me))
  ∧ (¬ (∃ before after, lower msg = before +:+ "rate limit" +:+ after) →
     current_key_index (self (call (iteration post data) me w).2) =
       current_key_index me
     ∧ credential (self (call (iteration post data) me w).2) = credential me)
  ∧ (1 < length (api_keys me) →
     current_key_index (self (call (iteration post data) me w).2) ≠
       current_key_index me
     ↔ ∃ before after, lower msg = before +:+ "rate limit" +:+ after)
  ∧ (∀ me' w' k, credential me' = Some k →
     posts (trace (call (attempt post data) me' w').2) =
       [request_with k data]).
Proof.
  intros Hmsg. unfold call in *.
  destruct (failed_attempt_continues post _ _ _ Hmsg) as (k & Hk & ->).
  simpl in Hk. pose proof (credential_nonempty _ _ Hk) as Hne.
  assert (current_key_index me < length (api_keys me)) as Hlt
    by by eapply lookup_lt_Some.
  rewrite handler_eq by done. simpl.
  unfold is_rate_limit. rewrite <- (PyFacts.contains_spec "rate limit").
  assert (∀ me' w' k', credential me' = Some k' →
            posts (trace (attempt post data
                      {| self := me'; world := w'; trace := [] |}).2) =
              [request_with k' data]) as Hsend.
  { intros me' w' k' Hk'. rewrite attempt_eq. simpl. rewrite Hk'. cbv zeta.
    by destruct (verdict_of _). }
  destruct (contains "rate limit" (lower msg)) eqn:Hc.
  - split_and!; try done.
    intros Hlen. split; [done|]. intros _ Heq.
    destruct (decide (current_key_index me + 1 = length (api_keys me)))
      as [Hlast|Hlast].
    + rewrite Hlast, Nat.Div0.mod_same in Heq. lia.
    + rewrite Nat.mod_small in Heq; lia.
  - by split_and!.
Qed.

(** C3, as the code has it.  For a seed of the range the nodes declare,
    0 .. 2**32-1, and with the cursor on the pool: a call returns a result
    tuple when each of its attempts either ends in a request failure
    (connection failure, error status, body that is not JSON) or is
    answered with a JSON body that has [choices[0].message.content]; and
    when, after attempts that all ended in request failures and within the
    [max_retries] attempts of the call, an attempt is answered with a
    status that is no error and a JSON body in which that lookup fails,
    the KeyError, IndexError or TypeError of the lookup is raised to the
    caller.  The call raises in no other case; the vision node without a
    tensor returns a tuple. *)
Theorem raises_only_on_unexpected_body (image : GroqAPIVLM.image_arg) :
  (0 ≤ seed < 2 ^ 32)%Z →
  valid me →
  ((∃ r, (call text_request me w).1 = inr r)
   ∨ ∃ e, unexpected_answer post (Z.to_nat max_retries) text_data start e
        ∧ (call text_request me w).1 = inl e)
  ∧ (∀ e, unexpected_answer post (Z.to_nat max_retries) text_data start e →
       (call text_request me w).1 = inl e
       ∧ ((∃ k, e = KeyError k) ∨ e = IndexError ∨ e = TypeError))
  ∧ ((∃ r, (call (vision_request tensor) me w).1 = inr r)
     ∨ ∃ e, unexpected_answer post (Z.to_nat max_retries) vision_data
              vision_start e
          ∧ (call (vision_request tensor) me w).1 = inl e)
  ∧ (∀ e, unexpected_answer post (Z.to_nat max_retries) vision_data
            vision_start e →
       (call (vision_request tensor) me w).1 = inl e
       ∧ ((∃ k, e = KeyError k) ∨ e = IndexError ∨ e = TypeError))
  ∧ ((∀ t', image ≠ GroqAPIVLM.ImageTensor t') →
     ∃ r, (call (vision_request image) me w).1 = inr r).
Proof.
  intros Hseed Hv.
  assert (∀ n data st, valid (self st) →
            (∃ r, (retry post n data st).1 = inr r)
            ∨ ∃ e, unexpected_answer post n data st e
                 ∧ (retry post n data st).1 = inl e) as Hretry.
  { intros n data st Hst.
    destruct (retry post n data st).1 as [e|r] eqn:Hres; [right|by eauto].
    exists e. split; [|done]. by apply retry_raises_inv. }
  assert (∀ n data st e, unexpected_answer post n data st e →
            (retry post n data st).1 = inl e
            ∧ ((∃ k, e = KeyError k) ∨ e = IndexError ∨ e = TypeError))
    as Hraise.
  { intros n data st e Hun. split; [by apply unexpected_answer_raises|].
    destruct Hun as (j & k & resp & js & _ & _ & _ & _ & _ & _ & Hc).
    by eapply first_choice_content_error. }
  unfold call. rewrite text_request_eq, vision_request_eq.
  rewrite seeding_in_range by done.
  split_and!.
  - by apply Hretry.
  - apply Hraise.
  - by apply (Hretry _ _ vision_start).
  - apply (Hraise _ _ vision_start).
  - intros Himg. rewrite vision_request_no_tensor by done.
    rewrite seeding_in_range by done. eauto.
Qed.

(** C5.  For a seed of the range the nodes declare, 0 .. 2**32-1: when the
    first attempt is answered with a status that is no error
    (2xx, or anything outside 400..599) and a JSON body that has
    [choices[0].message.content], the call returns that content, True and
    the status code of the response; one request has been sent, and the
    object, with its cursor, is as it was. *)
Theorem first_attempt_succeeds (k : string) (resp : Response)
    (js content : value) :
  (0 ≤ seed < 2 ^ 32)%Z →
  credential me = Some k →
  (0 < max_retries)%Z →
  ¬ (400 ≤ status_code resp < 600)%Z →
  body resp = inr js →
  first_choice_content js = inr content →
  ((post w (request_with k text_data)).1 = Answered resp →
   call text_request me w =
     (inr (content, true, PyInt (status_code resp)),
      {| self := me; world := (post w (request_with k text_data)).2;
         trace := [Post (request_with k text_data)] |}))
  ∧ ((post w (request_with k vision_data)).1 = Answered resp →
     (call (vision_request tensor) me w).1 =
       inr (content, true, PyInt (status_code resp))
     ∧ self (call (vision_request tensor) me w).2 = me
     ∧ world (call (vision_request tensor) me w).2 =
         (post w (request_with k vision_data)).2
     ∧ posts (trace (call (vision_request tensor) me w).2) =
         [request_with k vision_data]).
Proof.
  intros Hseed Hk Hretries Hstatus Hbody Hcontent.
  assert (verdict_of (Answered resp) =
            Returns (content, true, PyInt (status_code resp))) as Hverdict.
  { unfold verdict_of, raise_for_status, json_of.
    rewrite !bool_decide_eq_false_2 by lia. by rewrite Hbody, Hcontent. }
  destruct (Z.to_nat max_retries) as [|n] eqn:Hn; [lia|].
  unfold call. rewrite text_request_eq, vision_request_eq, Hn.
  rewrite seeding_in_range by done.
  split; intros Hpost.
  - by erewrite retry_returns_at_once; [|done|simpl; by rewrite Hpost].
  - erewrite retry_returns_at_once; [|done|simpl; by rewrite Hpost].
    simpl. split_and!; try done.
    by destruct (GroqAPIVLM.encoded _).
Qed.

(** C7.  For a seed of the range the nodes declare, 0 .. 2**32-1: the
    vision node called without an image tensor ([None], or an object that
    is no tensor) returns ("Image is required for VLM models.", False,
    "400 Bad Request") after printing that line: no request is sent, and
    the object and the world are as they were. *)
Theorem image_is_required (v : value) :
  (0 ≤ seed < 2 ^ 32)%Z →
  call (vision_request GroqAPIVLM.NoImage) me w =
    (inr (PyStr "Image is required for VLM models.", false,
          PyStr "400 Bad Request"),
     {| self := me; world := w;
        trace := [Print RED "Image is required for VLM models."] |})
  ∧ call (vision_request (GroqAPIVLM.NotATensor v)) me w =
      (inr (PyStr "Image is required for VLM models.", false,
            PyStr "400 Bad Request"),
       {| self := me; world := w;
          trace := [Print RED "Image is required for VLM models."] |})
  ∧ posts (trace (call (vision_request GroqAPIVLM.NoImage) me w).2) = []
  ∧ posts (trace (call (vision_request (GroqAPIVLM.NotATensor v)) me w).2) = [].
Proof.
  intros Hseed. unfold call.
  rewrite !vision_request_no_tensor by done.
  by rewrite seeding_in_range.
Qed.

(** C6.  Preset resolution, in both nodes: under the preset
    "Use [system_message] and [user_input]" the system message of the
    caller is taken as it is, whatever the mapping holds; under any other
    preset it is the text the mapping has for that name, and the empty
    string when the mapping has none; nothing is raised, and the resolved
    text is what goes into the messages. *)
Theorem preset_resolution (text : string) :
  (preset = "Use [system_message] and [user_input]" →
   GroqAPILLM.resolve me preset system_message = system_message
   ∧ GroqAPIVLM.resolve me preset system_message = system_message)
  ∧ (preset ≠ "Use [system_message] and [user_input]" →
     prompt_options me !! preset = Some text →
     GroqAPILLM.resolve me preset system_message = text
     ∧ GroqAPIVLM.resolve me preset system_message = text)
  ∧ (preset ≠ "Use [system_message] and [user_input]" →
     prompt_options me !! preset = None →
     GroqAPILLM.resolve me preset system_message = ""
     ∧ GroqAPIVLM.resolve me preset system_message = "")
  ∧ messages text_data =
      [ {| role := "system";
           msg_content :=
             Text (GroqAPILLM.resolve me preset system_message) |};
        {| role := "user"; msg_content := Text user_input |} ]
  ∧ (∀ base64_image,
       encode_image (tensor_to_pil t) = Some base64_image →
       truthy base64_image = true →
       messages vision_data =
         [ {| role := "user";
              msg_content :=
                Parts
                  [ TextPart
                      (GroqAPIVLM.resolve me preset system_message
                         +:+ NL +:+ user_input);
                    ImageUrlPart
                      ("data:image/jpeg;base64," +:+ base64_image) ] |} ]).
Proof.
  unfold GroqAPILLM.resolve, GroqAPIVLM.resolve,
    GroqAPILLM.get_prompt_content, GroqAPIVLM.get_prompt_content,
    GroqAPILLM.DEFAULT_PROMPT, GroqAPIVLM.DEFAULT_PROMPT.
  split_and!.
  - intros ->. by rewrite !bool_decide_eq_true_2.
  - intros Hne ->. by rewrite !bool_decide_eq_false_2.
  - intros Hne ->. by rewrite !bool_decide_eq_false_2.
  - done.
  - intros b Hb Ht. simpl. unfold GroqAPIVLM.tensor_messages.
    by rewrite Hb, Ht.
Qed.

(** C9.  For a seed of the range the nodes declare, 0 .. 2**32-1: the
    vision node given a tensor whose base64 encoding is falsy
    prints "Failed to encode image." and goes into the retry loop with an
    empty list of messages, instead of returning an error result: every
    request of the call has an empty ["messages"], and with the cursor on
    the pool and [max_retries] at least 1 a first request is sent. *)
Theorem unencoded_image_is_dispatched :
  (0 ≤ seed < 2 ^ 32)%Z →
  GroqAPIVLM.encoded (encode_image (tensor_to_pil t)) = false →
  call (vision_request tensor) me w =
    retry post (Z.to_nat max_retries)
      (GroqAPIVLM.build_data model [] temperature max_tokens top_p seed stop)
      {| self := me; world := w;
         trace := [Print RED "Failed to encode image."] |}
  ∧ Forall (λ rq, messages (json rq) = [])
      (posts (trace (call (vision_request tensor) me w).2))
  ∧ (valid me → (0 < max_retries)%Z →
     ∃ k later,
       credential me = Some k
       ∧ posts (trace (call (vision_request tensor) me w).2) =
           request_with k
             (GroqAPIVLM.build_data model [] temperature max_tokens top_p
                seed stop)
           :: later).
Proof.
  intros Hseed Henc.
  assert (GroqAPIVLM.tensor_messages tensor_to_pil encode_image t
            (GroqAPIVLM.resolve me preset system_message) user_input = [])
    as Hnone.
  { unfold GroqAPIVLM.tensor_messages, GroqAPIVLM.encoded in *.
    destruct (encode_image _); [|done]. by rewrite Henc. }
  unfold call. rewrite vision_request_eq, Henc.
  rewrite seeding_in_range by done. simpl. rewrite Hnone.
  split_and!; [done| |].
  - match goal with |- context [retry post ?n ?d ?s] =>
      destruct (retry_follows post n d s) as (_ & _ & _ & new & -> & Hnew)
    end.
    simpl. eapply Forall_impl; [apply Hnew|].
    by intros rq (k & _ & ->).
  - intros Hv Hretries. destruct (valid_credential _ Hv) as [k Hk].
    destruct (Z.to_nat max_retries) as [|n] eqn:Hn; [lia|].
    exists k.
    match goal with |- context [retry post _ ?d ?s] =>
      destruct (retry_first_post post n d s k Hk) as [later Hlater]
    end.
    exists later. split; [done|]. by rewrite Hlater.
Qed.

(** C10.  All the requests of one call go to the same URL with the same
    JSON body, built from the arguments before the loop, and differ at most
    in the credential of their one header, which is a credential of the
    pool; the body has the arguments as they are, and a ["stop"] exactly
    when the stop string is not empty. *)
Theorem payload_is_fixed (image : GroqAPIVLM.image_arg) :
  Forall (λ rq, url rq = URL ∧ json rq = text_data
                ∧ ∃ k, k ∈ api_keys me
                    ∧ headers rq = [("Authorization", "Bearer " +:+ k)])
    (posts (trace (call text_request me w).2))
  ∧ (∃ messages,
       Forall (λ rq, url rq = URL
                     ∧ json rq =
                         GroqAPIVLM.build_data model messages temperature
                           max_tokens top_p seed stop
                     ∧ ∃ k, k ∈ api_keys me
                         ∧ headers rq = [("Authorization", "Bearer " +:+ k)])
         (posts (trace (call (vision_request image) me w).2)))
  ∧ (∀ messages data,
       data = text_data
       ∨ data = GroqAPIVLM.build_data model messages temperature max_tokens
                  top_p seed stop →
       Requests.model data = model
       ∧ Requests.temperature data = temperature
       ∧ Requests.max_tokens data = max_tokens
       ∧ Requests.top_p data = top_p
       ∧ Requests.seed data = seed
       ∧ Requests.stop data =
           if bool_decide (stop = "") then None else Some stop).
Proof.
  assert (∀ data (st st' : @State World),
            trace st = [] → api_keys (self st) = api_keys me →
            follows data st st' →
            Forall (λ rq, url rq = URL ∧ json rq = data
                          ∧ ∃ k, k ∈ api_keys me
                              ∧ headers rq = [("Authorization", "Bearer " +:+ k)])
              (posts (trace st'))) as Hposts.
  { intros data st st' Htr Hkeys (_ & _ & _ & new & -> & Hnew).
    rewrite Htr. simpl. eapply Forall_impl; [apply Hnew|].
    intros rq (k & Hk & ->). rewrite Hkeys in Hk. simpl. eauto. }
  split_and!.
  - exact (Hposts _ {| self := me; world := w; trace := [] |} _
             eq_refl eq_refl
             (text_request_follows post model preset system_message
                user_input temperature max_tokens top_p seed max_retries
                stop json_mode {| self := me; world := w; trace := [] |})).
  - destruct (vision_request_follows post tensor_to_pil encode_image model
                image temperature max_tokens top_p seed max_retries stop
                json_mode preset system_message user_input
                {| self := me; world := w; trace := [] |}) as [ms Hms].
    exists ms.
    exact (Hposts _ {| self := me; world := w; trace := [] |} _
             eq_refl eq_refl Hms).
  - assert ((if truthy stop then Some stop else None) =
              if bool_decide (stop = "") then None else Some stop) as Hstop
      by by destruct stop.
    by intros ms data [->| ->].
Qed.

(** C8.  A node as the constructor builds it, and after any sequence of
    rotations and completion requests, whatever the service answers, has a
    pool that is not empty, the pool it was built with, and a cursor that
    is an index of the pool; the node built when no configuration file is
    found has the one placeholder credential. *)
Theorem cursor_stays_on_pool (fs : Files) (ops : list Instance.operation) :
  init fs = inr me →
  0 < length (api_keys me)
  ∧ current_key_index me < length (api_keys me)
  ∧ api_keys (Instance.run post tensor_to_pil encode_image ops me w).1 =
      api_keys me
  ∧ current_key_index (Instance.run post tensor_to_pil encode_image ops me w).1
      < length (api_keys (Instance.run post tensor_to_pil encode_image ops me w).1)
  ∧ (groq_config fs = None → parent_groq_config fs = None →
     api_keys me = ["default_api_key"])
  ∧ (length (api_keys me) = 1 →
     current_key_index
       (Instance.run post tensor_to_pil encode_image ops me w).1 =
       current_key_index me).
Proof.
  intros Hinit. pose proof (init_valid _ _ Hinit) as Hv.
  destruct (run_valid post tensor_to_pil encode_image ops me w) as [Hkeys Hrun].
  unfold valid in *. split_and!; [lia|done|done|by apply Hrun| |].
  - intros Hc1 Hc2. revert Hinit. unfold init, load_api_keys.
    rewrite Hc1, Hc2. simpl. by intros [= <-].
  - intros Hone. specialize (Hrun Hv). rewrite Hkeys in Hrun. lia.
Qed.

(** The status code of a returned result is a string exactly when the
    success flag is False: the results of the failure paths carry a string,
    the result of the success path carries the [int] of the response. *)
Lemma status_code_is_str_unless_success (image : GroqAPIVLM.image_arg)
    (res : result) :
  (call text_request me w).1 = inr res
  ∨ (call (vision_request image) me w).1 = inr res →
  is_str res.2 = negb res.1.2.
Proof.
  assert (∀ n data st, (retry post n data st).1 = inr res →
            is_str res.2 = negb res.1.2) as Hretry.
  { intros n data st Hres.
    by destruct (retry_returns post _ _ _ _ Hres) as [->|(c & code & ->)]. }
  unfold call. intros [Hres|Hres].
  - rewrite text_request_eq in Hres.
    destruct (seeding seed); [done|]. by eapply Hretry.
  - destruct image as [|t'|v].
    + rewrite vision_request_no_tensor in Hres by done.
      destruct (seeding seed); [done|]. by simplify_eq/=.
    + rewrite vision_request_eq in Hres.
      destruct (seeding seed); [done|]. by eapply Hretry.
    + rewrite vision_request_no_tensor in Hres by done.
      destruct (seeding seed); [done|]. by simplify_eq/=.
Qed.

End Claims.

(** ** The claims on concrete services *)

Module Examples.
Import Py Requests GroqNode Observe Scenario.

(** Two failures, neither of them a rate-limit failure: a server error and
    a refused connection. *)
Lemma max_retries_reached_witness :
  all_attempts_fail play 2
    (GroqAPILLM.build_data "llama3-8b-8192"
       (GroqAPILLM.resolve three_keys "terse" "Be kind.") "Hello"
       0.5%float 1024 1%float 42 "")
    three_keys
    [answer 500 "Internal Server Error" (inr PyNone);
     Failed "Connection refused"]
  ∧ (text_request three_keys
       [answer 500 "Internal Server Error" (inr PyNone);
        Failed "Connection refused"] "terse" 2).1 =
      inr (PyStr "Max retries reached. Unable to complete the request.",
           false, PyStr "429 Too Many Requests").
Proof.
  assert (all_attempts_fail play 2
            (GroqAPILLM.build_data "llama3-8b-8192"
               (GroqAPILLM.resolve three_keys "terse" "Be kind.") "Hello"
               0.5%float 1024 1%float 42 "")
            three_keys
            [answer 500 "Internal Server Error" (inr PyNone);
             Failed "Connection refused"]) as Hfail.
  { repeat (split; [eexists; split; [vm_compute; reflexivity|exact I]|]).
    exact I. }
  split; [exact Hfail|].
  refine (proj1 (max_retries_reached play pil_of encode three_keys _
                   "llama3-8b-8192" "terse" "Be kind." "Hello" 0.5%float
                   1%float 1024 42 2 "" false None _) Hfail).
  lia.
Defined.

(** A rate-limit failure on the first of three credentials: the cursor
    goes to the second. *)
Lemma rotation_on_rate_limit_witness :
  (call (attempt play
           (GroqAPILLM.build_data "llama3-8b-8192" "Be kind." "Hello"
              0.5%float 1024 1%float 42 ""))
     three_keys [Failed "Rate Limit reached for model"]).1 =
    inl (RequestException "Rate Limit reached for model")
  ∧ current_key_index
      (self (call (iteration play
                     (GroqAPILLM.build_data "llama3-8b-8192" "Be kind."
                        "Hello" 0.5%float 1024 1%float 42 ""))
               three_keys [Failed "Rate Limit reached for model"]).2) =
      (0 + 1) `mod` 3.
Proof.
  split; [reflexivity|].
  refine (proj1 (proj2 (proj2
            (rotation_on_rate_limit play three_keys
               [Failed "Rate Limit reached for model"]
               (GroqAPILLM.build_data "llama3-8b-8192" "Be kind." "Hello"
                  0.5%float 1024 1%float 42 "")
               "Rate Limit reached for model" eq_refl))) _).
  by exists "", " reached for model".
Defined.

(** A service that answers 200 with the JSON body [{}]: the call raises
    [KeyError('choices')] to its caller and returns no tuple. *)
Lemma unexpected_body_raises :
  (text_request fallback [answer 200 "OK" (inr (PyDict []))]
     GroqAPILLM.DEFAULT_PROMPT 2).1 = inl (KeyError (KStr "choices"))
  ∧ ¬ ∃ r : result,
        (text_request fallback [answer 200 "OK" (inr (PyDict []))]
           GroqAPILLM.DEFAULT_PROMPT 2).1 = inr r.
Proof. split; [reflexivity|]. intros [r Hr]. discriminate Hr. Qed.

Lemma raises_only_on_unexpected_body_witness :
  valid fallback
  ∧ unexpected_answer play 2
      (GroqAPILLM.build_data "llama3-8b-8192"
         (GroqAPILLM.resolve fallback GroqAPILLM.DEFAULT_PROMPT "Be kind.")
         "Hello" 0.5%float 1024 1%float 42 "")
      {| self := fallback;
         world := [Failed "Connection refused";
                   answer 200 "OK" (inr (PyDict []))];
         trace := [] |}
      (KeyError (KStr "choices"))
  ∧ (text_request fallback
       [Failed "Connection refused"; answer 200 "OK" (inr (PyDict []))]
       GroqAPILLM.DEFAULT_PROMPT 2).1 = inl (KeyError (KStr "choices")).
Proof.
  assert (valid fallback) as Hv by (unfold valid; simpl; lia).
  assert (unexpected_answer play 2
            (GroqAPILLM.build_data "llama3-8b-8192"
               (GroqAPILLM.resolve fallback GroqAPILLM.DEFAULT_PROMPT
                  "Be kind.")
               "Hello" 0.5%float 1024 1%float 42 "")
            {| self := fallback;
               world := [Failed "Connection refused";
                         answer 200 "OK" (inr (PyDict []))];
               trace := [] |}
            (KeyError (KStr "choices"))) as Hun.
  { exists 1, "default_api_key",
      {| status_code := 200; reason := "OK"; resp_url := URL;
         body := inr (PyDict []) |}, (PyDict []).
    split_and!; try reflexivity; [lia|].
    split; [eexists; split; [vm_compute; reflexivity|exact I]|exact I]. }
  split; [exact Hv|]. split; [exact Hun|].
  refine (proj1 (proj1 (proj2
            (raises_only_on_unexpected_body play pil_of encode fallback
               [Failed "Connection refused"; answer 200 "OK" (inr (PyDict []))]
               "llama3-8b-8192" GroqAPILLM.DEFAULT_PROMPT "Be kind." "Hello"
               0.5%float 1%float 1024 42 2 "" false None GroqAPIVLM.NoImage
               _ Hv)) _ Hun)).
  lia.
Defined.

(** The text of the [HTTPError] for a 429 answer with the standard reason
    phrase does not have the words "rate limit": such an answer is retried
    with the same credential. *)
Example too_many_requests_keeps_the_credential :
  (text_request three_keys [answer 429 "Too Many Requests" (inr PyNone)]
     "terse" 1).2 =
    {| self := three_keys; world := [];
       trace :=
         [Post (request_with "k1"
                  (GroqAPILLM.build_data "llama3-8b-8192"
                     "Answer in one word." "Hello" 0.5%float 1024 1%float
                     42 ""));
          Print RED
            ("Error: 429 Client Error: Too Many Requests for url: " +:+ URL);
          Print RED MAX_RETRIES_TEXT] |}.
Proof. reflexivity. Qed.

(** C4, on the code.  A call that succeeds returns the status code of the
    response as it is, an [int] (here 200), where the failure paths return
    the strings "429 Too Many Requests" and "400 Bad Request": the third
    component of a successful result is no string, in the text node and in
    the vision node. *)
Theorem status_code_of_success_is_int :
  (text_request fallback [answer 200 "OK" (inr (completion "Hi"))]
     GroqAPILLM.DEFAULT_PROMPT 2).1 = inr (PyStr "Hi", true, PyInt 200)
  ∧ (vision_request fallback [answer 200 "OK" (inr (completion "A cat."))]
       (GroqAPIVLM.ImageTensor (Some "aGk=")) 2).1 =
      inr (PyStr "A cat.", true, PyInt 200)
  ∧ is_str (PyInt 200) = false
  ∧ is_str (PyStr "429 Too Many Requests") = true.
Proof. by split_and!. Qed.

Lemma first_attempt_succeeds_witness :
  credential fallback = Some "default_api_key"
  ∧ text_request fallback [answer 200 "OK" (inr (completion "Hi"))]
      GroqAPILLM.DEFAULT_PROMPT 2 =
    (inr (PyStr "Hi", true, PyInt 200),
     {| self := fallback; world := [];
        trace :=
          [Post (request_with "default_api_key"
                   (GroqAPILLM.build_data "llama3-8b-8192" "Be kind." "Hello"
                      0.5%float 1024 1%float 42 ""))] |}).
Proof.
  split; [reflexivity|].
  refine (proj1 (first_attempt_succeeds play pil_of encode fallback
                   [answer 200 "OK" (inr (completion "Hi"))] "llama3-8b-8192"
                   GroqAPILLM.DEFAULT_PROMPT "Be kind." "Hello" 0.5%float
                   1%float 1024 42 2 "" false None "default_api_key"
                   {| status_code := 200; reason := "OK"; resp_url := URL;
                      body := inr (completion "Hi") |}
                   (completion "Hi") (PyStr "Hi") _ eq_refl _ _ eq_refl
                   eq_refl)
            eq_refl).
  - lia.
  - reflexivity.
  - intros [Hlo Hhi]. vm_compute in Hlo. by destruct Hlo.
Defined.

Lemma preset_resolution_witness :
  GroqAPILLM.resolve three_keys "terse" "Be kind." = "Answer in one word."
  ∧ GroqAPIVLM.resolve three_keys "terse" "Be kind." = "Answer in one word."
  ∧ GroqAPILLM.resolve three_keys "poet" "Be kind." = ""
  ∧ GroqAPILLM.resolve three_keys "Use [system_message] and [user_input]"
      "Be kind." = "Be kind.".
Proof.
  split_and!.
  - refine (proj1 (proj1 (proj2
              (preset_resolution pil_of encode three_keys "llama3-8b-8192"
                 "terse" "Be kind." "Hello" 0.5%float 1%float 1024 42 ""
                 None "Answer in one word.")) _ _)); done.
  - refine (proj2 (proj1 (proj2
              (preset_resolution pil_of encode three_keys "llama3-8b-8192"
                 "terse" "Be kind." "Hello" 0.5%float 1%float 1024 42 ""
                 None "Answer in one word.")) _ _)); done.
  - refine (proj1 (proj1 (proj2 (proj2
              (preset_resolution pil_of encode three_keys "llama3-8b-8192"
                 "poet" "Be kind." "Hello" 0.5%float 1%float 1024 42 ""
                 None ""))) _ _)); done.
  - refine (proj1 (proj1
              (preset_resolution pil_of encode three_keys "llama3-8b-8192"
                 "Use [system_message] and [user_input]" "Be kind." "Hello"
                 0.5%float 1%float 1024 42 "" None "") _)); done.
Defined.

Lemma image_is_required_witness :
  (0 ≤ 42 < 2 ^ 32)%Z
  ∧ vision_request fallback [answer 200 "OK" (inr (completion "A cat."))]
      GroqAPIVLM.NoImage 2 =
    (inr (PyStr "Image is required for VLM models.", false,
          PyStr "400 Bad Request"),
     {| self := fallback;
        world := [answer 200 "OK" (inr (completion "A cat."))];
        trace := [Print RED "Image is required for VLM models."] |}).
Proof.
  assert (0 ≤ 42 < 2 ^ 32)%Z as Hseed by lia.
  split; [exact Hseed|].
  exact (proj1 (image_is_required play pil_of encode fallback
                  [answer 200 "OK" (inr (completion "A cat."))]
                  "llava-v1.5-7b-4096-preview" GroqAPIVLM.DEFAULT_PROMPT
                  "Be kind." "What is this?" 0.5%float 1%float 1024 42 2 ""
                  false PyNone Hseed)).
Defined.

(** An image that cannot be encoded: the request goes out with no
    message. *)
Lemma unencoded_image_is_dispatched_witness :
  GroqAPIVLM.encoded (encode (pil_of None)) = false
  ∧ posts (trace (vision_request fallback
                    [answer 400 "Bad Request" (inr PyNone)]
                    (GroqAPIVLM.ImageTensor None) 1).2) =
      [request_with "default_api_key"
         (GroqAPIVLM.build_data "llava-v1.5-7b-4096-preview" [] 0.5%float
            1024 1%float 42 "")]
  ∧ Forall (λ rq, messages (json rq) = [])
      (posts (trace (vision_request fallback
                       [answer 400 "Bad Request" (inr PyNone)]
                       (GroqAPIVLM.ImageTensor None) 1).2)).
Proof.
  split; [reflexivity|]. split; [reflexivity|].
  exact (proj1 (proj2
           (unencoded_image_is_dispatched play pil_of encode fallback
              [answer 400 "Bad Request" (inr PyNone)]
              "llava-v1.5-7b-4096-preview" GroqAPIVLM.DEFAULT_PROMPT
              "Be kind." "What is this?" 0.5%float 1%float 1024 42 1 ""
              false None ltac:(lia) eq_refl))).
Defined.

(** A call of two attempts, the second with the next credential: the
    same body goes out twice. *)
Lemma payload_is_fixed_witness :
  posts (trace (text_request three_keys
                  [Failed "rate limit exceeded";
                   answer 200 "OK" (inr (completion "Hi"))] "terse" 2).2) =
    [request_with "k1"
       (GroqAPILLM.build_data "llama3-8b-8192" "Answer in one word." "Hello"
          0.5%float 1024 1%float 42 "");
     request_with "k2"
       (GroqAPILLM.build_data "llama3-8b-8192" "Answer in one word." "Hello"
          0.5%float 1024 1%float 42 "")]
  ∧ Forall (λ rq, url rq = URL
                  ∧ json rq =
                      GroqAPILLM.build_data "llama3-8b-8192"
                        (GroqAPILLM.resolve three_keys "terse" "Be kind.")
                        "Hello" 0.5%float 1024 1%float 42 ""
                  ∧ ∃ k, k ∈ api_keys three_keys
                      ∧ headers rq = [("Authorization", "Bearer " +:+ k)])
      (posts (trace (text_request three_keys
                       [Failed "rate limit exceeded";
                        answer 200 "OK" (inr (completion "Hi"))]
                       "terse" 2).2)).
Proof.
  split; [reflexivity|].
  exact (proj1 (payload_is_fixed play pil_of encode three_keys
                  [Failed "rate limit exceeded";
                   answer 200 "OK" (inr (completion "Hi"))]
                  "llama3-8b-8192" "terse" "Be kind." "Hello" 0.5%float
                  1%float 1024 42 2 "" false GroqAPIVLM.NoImage)).
Defined.

(** The node built without files, rotated and called twice. *)
Lemma cursor_stays_on_pool_witness :
  init no_files = inr fallback
  ∧ current_key_index
      (Instance.run play pil_of encode
         [Instance.Rotate;
          Instance.CompleteText "llama3-8b-8192" GroqAPILLM.DEFAULT_PROMPT
            "Be kind." "Hello" 0.5%float 1024 1%float 42 2 "" false;
          Instance.Rotate]
         fallback [Failed "rate limit"]).1
    < length (api_keys
                (Instance.run play pil_of encode
                   [Instance.Rotate;
                    Instance.CompleteText "llama3-8b-8192"
                      GroqAPILLM.DEFAULT_PROMPT "Be kind." "Hello" 0.5%float
                      1024 1%float 42 2 "" false;
                    Instance.Rotate]
                   fallback [Failed "rate limit"]).1).
Proof.
  split; [reflexivity|].
  exact (proj1 (proj2 (proj2 (proj2
           (cursor_stays_on_pool play pil_of encode fallback
              [Failed "rate limit"] no_files _ eq_refl))))).
Defined.

End Examples.

(** ** Configuration and prompt files *)

Module Files.
Import Py Requests GroqNode Observe.

Lemma split_length_count (sep : ascii) (s : string) :
  length (split sep s) = S (count sep s).
Proof.
  induction s as [|c s IH]; [done|]. simpl.
  case_bool_decide; simpl; [by rewrite IH|].
  destruct (split sep s); simpl in *; lia.
Qed.

Lemma split_pieces_clean (sep : ascii) (s : string) :
  Forall (λ piece, count sep piece = 0) (split sep s).
Proof.
  induction s as [|c s IH]; simpl; [by repeat constructor|].
  case_bool_decide as Hc; [by constructor|].
  destruct (split sep s) as [|piece rest]; simpl.
  - repeat constructor. simpl. by rewrite bool_decide_eq_false_2.
  - inversion_clear IH as [|? ? Hpiece Hrest]. constructor; [|done].
    simpl. by rewrite bool_decide_eq_false_2.
Qed.

Lemma count_lstrip (c : ascii) (s : string) :
  (count c (lstrip s) ≤ count c s)%nat.
Proof.
  induction s as [|a s IH]; simpl; [done|].
  destruct (isspace a); simpl; lia.
Qed.

Lemma count_rstrip (c : ascii) (s : string) :
  (count c (rstrip s) ≤ count c s)%nat.
Proof.
  induction s as [|a s IH]; simpl; [done|].
  destruct (rstrip s) as [|b r] eqn:Hr.
  - destruct (isspace a); simpl in *; lia.
  - simpl in *. lia.
Qed.

Lemma rstrip_idemp (s : string) : rstrip (rstrip s) = rstrip s.
Proof.
  induction s as [|a s IH]; simpl; [done|].
  destruct (rstrip s) as [|b r] eqn:Hr.
  - destruct (isspace a) eqn:Ha; simpl; [done|]. by rewrite Ha.
  - cbn [rstrip]. cbn [rstrip] in IH. by rewrite IH.
Qed.

Lemma rstrip_cons (a : ascii) (s : string) :
  isspace a = false → rstrip (String a s) = String a (rstrip s).
Proof. intros Ha. simpl. destruct (rstrip s); by rewrite ?Ha. Qed.

Lemma lstrip_head (s : string) :
  lstrip s = "" ∨ ∃ a r, lstrip s = String a r ∧ isspace a = false.
Proof.
  induction s as [|a s IH]; simpl; [by left|].
  destruct (isspace a) eqn:Ha; [done|]. right. eauto.
Qed.

(** A stripped string has nothing left to strip. *)
Lemma strip_idemp (s : string) : strip (strip s) = strip s.
Proof.
  unfold strip. destruct (lstrip_head s) as [->|(a & r & -> & Ha)]; [done|].
  rewrite rstrip_cons by done. simpl. rewrite Ha.
  rewrite rstrip_cons by done. by rewrite rstrip_idemp.
Qed.

Lemma count_strip (c : ascii) (s : string) : count c s = 0 → count c (strip s) = 0.
Proof.
  intros Hs. unfold strip.
  pose proof (count_rstrip c (lstrip s)). pose proof (count_lstrip c s). lia.
Qed.

Lemma config_read_lookup (file config : ini) (name : string) :
  config_read file config !! name =
    match file !! name, config !! name with
    | Some new, Some old => Some (new ∪ old)
    | Some new, None => Some new
    | None, old => old
    end.
Proof.
  unfold config_read. rewrite lookup_union_with.
  by destruct (file !! name), (config !! name).
Qed.

(** The pool is the placeholder when no file that is there has a section
    [API_KEYS]: not only when no file is found. *)
Theorem placeholder_without_section (fs : Files) :
  (∀ f, groq_config fs = Some f → f !! "API_KEYS" = None) →
  (∀ f, parent_groq_config fs = Some f → f !! "API_KEYS" = None) →
  init fs =
    inr {| api_keys := ["default_api_key"]; current_key_index := 0;
           prompt_options := load_prompt_options fs |}.
Proof.
  intros Hlocal Hparent. unfold init, load_api_keys. simpl.
  assert (∀ f config, f !! "API_KEYS" = None → config !! "API_KEYS" = None →
            config_read f config !! "API_KEYS" = None) as Hread.
  { intros f config Hf Hc. by rewrite config_read_lookup, Hf. }
  destruct (groq_config fs) as [f1|]; destruct (parent_groq_config fs) as [f2|];
    try specialize (Hlocal _ eq_refl); try specialize (Hparent _ eq_refl);
    by rewrite ?Hread by (done || by apply Hread).
Qed.

Lemma append_nil_r (s : string) : s +:+ "" = s.
Proof. induction s as [|c s IH]; [done|]. by rewrite <- IH at 2. Qed.

Lemma append_assoc (s1 s2 s3 : string) : (s1 +:+ s2) +:+ s3 = s1 +:+ s2 +:+ s3.
Proof.
  induction s1 as [|c s1 IH]; [done|].
  change (String c ((s1 +:+ s2) +:+ s3) = String c (s1 +:+ s2 +:+ s3)).
  by rewrite IH.
Qed.

(** Splitting at the commas and joining with commas gives the text back. *)
Lemma join_split (sep : ascii) (s : string) : join sep (split sep s) = s.
Proof.
  induction s as [|c s IH]; [done|]. simpl.
  case_bool_decide as Hc.
  - subst c. pose proof (PyFacts.split_length sep s) as Hlen.
    destruct (split sep s) as [|piece rest] eqn:Hs; [simpl in Hlen; lia|].
    cbn [join]. cbn [join] in IH. by rewrite IH.
  - pose proof (PyFacts.split_length sep s) as Hlen.
    destruct (split sep s) as [|piece rest] eqn:Hs; [simpl in Hlen; lia|].
    cbn [join] in *. destruct rest as [|piece' rest].
    + by rewrite IH.
    + rewrite <- IH.
      by change (String c (piece +:+ String sep (join sep (piece' :: rest))) =
                 String c (piece +:+ String sep (join sep (piece' :: rest)))).
Qed.

Lemma lstrip_decompose (s : string) :
  ∃ before, s = before +:+ lstrip s ∧ all_space before = true.
Proof.
  induction s as [|c s (before & IH & Hsp)]; [by exists ""|]. simpl.
  destruct (isspace c) eqn:Hc; [|by exists ""].
  exists (String c before). split; [|by simpl; rewrite Hc].
  change (String c s = String c (before +:+ lstrip s)). by rewrite <- IH.
Qed.

Lemma rstrip_decompose (s : string) :
  ∃ after, s = rstrip s +:+ after ∧ all_space after = true.
Proof.
  induction s as [|c s (after & IH & Hsp)]; [by exists ""|]. simpl.
  destruct (rstrip s) as [|b r] eqn:Hr.
  - destruct (isspace c) eqn:Hc.
    + exists (String c s). split; [done|]. simpl. rewrite Hc.
      by rewrite IH.
    + exists after. split; [|done].
      change (String c s = String c ("" +:+ after)). by rewrite <- IH.
  - exists after. split; [|done].
    change (String c s = String c (String b r +:+ after)). by rewrite <- IH.
Qed.

(** A string is its stripped self between two stretches of white space. *)
Lemma strip_decompose (s : string) :
  ∃ before after,
    s = before +:+ strip s +:+ after
    ∧ all_space before = true ∧ all_space after = true.
Proof.
  destruct (lstrip_decompose s) as (before & Hs & Hb).
  destruct (rstrip_decompose (lstrip s)) as (after & Hl & Ha).
  exists before, after. unfold strip. by rewrite <- Hl.
Qed.

Lemma rstrip_last (s front : string) (c : ascii) :
  rstrip s = front +:+ String c "" → isspace c = false.
Proof.
  revert front; induction s as [|a s IH]; intros front; simpl.
  - by destruct front.
  - destruct (rstrip s) as [|b r] eqn:Hr.
    + destruct (isspace a) eqn:Ha; [by destruct front|].
      destruct front as [|x front]; [by intros [= <-]|].
      intros [= _ Hrest]. by destruct front.
    + destruct front as [|x front]; [intros [= _ Hrest]; done|].
      intros [= _ Hrest]. by eapply IH.
Qed.

(** A stripped string has no white space at either end. *)
Lemma strip_trimmed (s : string) : trimmed (strip s).
Proof.
  split.
  - intros c rest. unfold strip.
    destruct (lstrip_head s) as [->|(a & r & -> & Ha)]; [done|].
    rewrite rstrip_cons by done. by intros [= <- _].
  - intros front c. unfold strip. apply rstrip_last.
Qed.

Lemma split_strip_pool (value : string) :
  pool_of value (strip <$> split "," value)
  ∧ length (strip <$> split "," value) = S (count "," value).
Proof.
  split; [|by rewrite length_fmap, split_length_count].
  exists (split "," value). split_and!.
  - apply join_split.
  - apply split_pieces_clean.
  - apply Forall2_fmap_r, Forall_Forall2_diag, Forall_forall.
    intros piece _. split; [apply strip_trimmed|apply strip_decompose].
Qed.

(** The file next to the module decides when it has the section and the
    option, whatever the file of the parent directory holds: the text of
    the option is cut at its commas, there is one credential per piece,
    one more than there are commas, and each credential is its piece
    without the white space around it. *)
Theorem local_config_wins (fs : Files) (f section : gmap string _)
    (keys : string) :
  groq_config fs = Some f →
  f !! "API_KEYS" = Some section →
  section !! "groq_keys" = Some keys →
  ∃ pool,
    load_api_keys fs = inr pool
    ∧ pool_of keys pool
    ∧ length pool = S (count "," keys).
Proof.
  intros Hf Hsec Hkeys. exists (strip <$> split "," keys).
  split; [|apply split_strip_pool].
  unfold load_api_keys. simpl. rewrite Hf.
  by rewrite config_read_lookup, Hsec, lookup_empty, Hkeys.
Qed.

(** The file of the parent directory is read when the first file is not
    there or has no section [API_KEYS], and its option is cut into
    credentials in the same way. *)
Theorem parent_config_is_second (fs : Files) (f section : gmap string _)
    (keys : string) :
  (∀ f1, groq_config fs = Some f1 → f1 !! "API_KEYS" = None) →
  parent_groq_config fs = Some f →
  f !! "API_KEYS" = Some section →
  section !! "groq_keys" = Some keys →
  ∃ pool,
    load_api_keys fs = inr pool
    ∧ pool_of keys pool
    ∧ length pool = S (count "," keys).
Proof.
  intros Hlocal Hf Hsec Hkeys. exists (strip <$> split "," keys).
  split; [|apply split_strip_pool].
  unfold load_api_keys. simpl. rewrite Hf.
  destruct (groq_config fs) as [f1|].
  - rewrite config_read_lookup, (Hlocal f1 eq_refl), lookup_empty.
    rewrite config_read_lookup, Hsec, config_read_lookup, (Hlocal f1 eq_refl).
    by rewrite lookup_empty, Hkeys.
  - by rewrite config_read_lookup, Hsec, lookup_empty, Hkeys.
Qed.

(** A section [API_KEYS] without the option [groq_keys] in the first file
    makes the constructor raise [KeyError('groq_keys')]: neither the other
    file nor the placeholder is tried. *)
Theorem missing_option_raises (fs : Files) (f section : gmap string _) :
  groq_config fs = Some f →
  f !! "API_KEYS" = Some section →
  section !! "groq_keys" = None →
  init fs = inl (KeyError (KStr "groq_keys")).
Proof.
  intros Hf Hsec Hkeys. unfold init, load_api_keys. simpl. rewrite Hf.
  by rewrite config_read_lookup, Hsec, lookup_empty, Hkeys.
Qed.

Lemma load_api_keys_from_clean paths config keys :
  load_api_keys_from paths config = inr keys →
  Forall (λ k, trimmed k ∧ count "," k = 0) keys.
Proof.
  revert config; induction paths as [|[file|] paths IH]; intros config; simpl.
  - intros [= <-]. constructor; [|constructor].
    split; [apply (strip_trimmed "default_api_key")|done].
  - destruct (config_read file config !! "API_KEYS") as [section|]; [|apply IH].
    destruct (section !! "groq_keys") as [text|]; [|done].
    intros [= <-]. rewrite Forall_fmap.
    eapply Forall_impl; [apply (split_pieces_clean "," text)|].
    intros piece Hpiece. simpl. split; [apply strip_trimmed|by apply count_strip].
  - apply IH.
Qed.

(** No credential of a pool has a comma in it, or white space at its first
    or at its last place. *)
Theorem credentials_are_stripped (fs : Files) (keys : list string) :
  load_api_keys fs = inr keys →
  Forall (λ k, trimmed k ∧ count "," k = 0) keys.
Proof. apply load_api_keys_from_clean. Qed.

(** With both prompt files loading (or missing), the presets are those of
    the two files, and a name that both have has the text of the user
    file. *)
Theorem user_prompts_override (fs : Files) (name : string) :
  default_prompts fs ≠ Broken →
  user_prompts fs ≠ Broken →
  load_prompt_options fs =
    mapping (user_prompts fs) ∪ mapping (default_prompts fs)
  ∧ load_prompt_options fs !! name =
      match mapping (user_prompts fs) !! name with
      | Some text => Some text
      | None => mapping (default_prompts fs) !! name
      end.
Proof.
  intros Hd Hu.
  assert (load_prompt_options fs =
            mapping (user_prompts fs) ∪ mapping (default_prompts fs)) as ->.
  { unfold load_prompt_options. simpl.
    destruct (default_prompts fs) as [|d|], (user_prompts fs) as [|u|];
      simpl; try done;
      by rewrite ?(left_id_L ∅ (∪)), ?(right_id_L ∅ (∪)). }
  split; [done|]. rewrite lookup_union.
  by destruct (mapping (user_prompts fs) !! name), (mapping (default_prompts fs) !! name).
Qed.


End Files.

(** ** More on the retry loop *)

Module Loop.
Import Py Requests GroqNode Observe Dispatcher.

(** The lookup of the content succeeds on a JSON object whose ["choices"]
    is a list that begins with an object whose ["message"] is an object
    with a ["content"], and on nothing else; the content is then that
    value, of any type, and the other choices are not looked at. *)
Theorem first_choice_content_inv (js content : value) :
  first_choice_content js = inr content ↔
  ∃ kvs choice_kvs others message_kvs,
    js = PyDict kvs
    ∧ assoc "choices" kvs = Some (PyList (PyDict choice_kvs :: others))
    ∧ assoc "message" choice_kvs = Some (PyDict message_kvs)
    ∧ assoc "content" message_kvs = Some content.
Proof.
  split.
  - unfold first_choice_content.
    destruct js as [| | | | |xs|kvs]; simpl; try done.
    destruct (assoc "choices" kvs) as [choices|] eqn:Hchoices; [|done].
    destruct choices as [| | | |s|xs|kvs']; simpl; try done.
    + unfold index. simpl. by destruct (String.list_ascii_of_string s).
    + unfold index. simpl. destruct xs as [|choice others]; simpl; [done|].
      destruct choice as [| | | | |xs'|choice_kvs]; simpl; try done.
      destruct (assoc "message" choice_kvs) as [message|] eqn:Hmessage; [|done].
      destruct message as [| | | | |xs'|message_kvs]; simpl; try done.
      destruct (assoc "content" message_kvs) as [c|] eqn:Hcontent; [|done].
      intros [= <-]. by exists kvs, choice_kvs, others, message_kvs.
  - intros (kvs & choice_kvs & others & message_kvs & -> & Hc & Hm & Hcontent).
    unfold first_choice_content. simpl. rewrite Hc. simpl.
    unfold index. simpl. by rewrite Hm; simpl; rewrite Hcontent.
Qed.

Section Facts.
Context {World : Type}.
Variable post : World → Request → post_result * World.

#[local] Existing Instances M_ret M_bind.

Implicit Types (st : @State World) (data : Data) (me : Node).

(** An iteration sends one request, when there is a credential under the
    cursor, and none otherwise. *)
Lemma iteration_posts data st :
  posts (trace (iteration post data st).2) =
    posts (trace st) ++
    match credential (self st) with
    | Some k => [request_with k data]
    | None => []
    end.
Proof.
  rewrite iteration_eq.
  destruct (credential (self st)) as [k|] eqn:Hk; [|by rewrite app_nil_r].
  cbv zeta. apply credential_nonempty in Hk.
  destruct (verdict_of _); simpl.
  - unfold posts. by rewrite omap_app.
  - rewrite handler_eq by done. simpl. unfold posts.
    rewrite !omap_app. simpl. destruct (is_rate_limit msg); simpl;
      by rewrite app_nil_r.
  - unfold posts. by rewrite omap_app.
Qed.

(** The loop sends at most one request per iteration. *)
Lemma retry_posts_bound n data st :
  (length (posts (trace (retry post n data st).2)) ≤
     length (posts (trace st)) + n)%nat.
Proof.
  revert st; induction n as [|n IH]; intros st.
  - simpl. unfold posts. rewrite omap_app, length_app. simpl. lia.
  - cbn [retry]. unfold mbind, M_bind.
    pose proof (iteration_posts data st) as Hit.
    assert (length (posts (trace (iteration post data st).2)) ≤
              length (posts (trace st)) + 1)%nat as Hone.
    { rewrite Hit, length_app. destruct (credential _); simpl; lia. }
    destruct (iteration post data st) as [[e|[r|]] st']; simpl in *; [lia..|].
    specialize (IH st'). lia.
Qed.

(** A loop whose attempts all fail sends one request per iteration, and
    prints one line per iteration and a last one. *)
Lemma retry_exhausted_counts P n data st :
  all_attempts post P n data (self st) (world st) →
  length (posts (trace (retry post n data st).2)) =
    length (posts (trace st)) + n
  ∧ length (printed (trace (retry post n data st).2)) =
      length (printed (trace st)) + n + 1
  ∧ last (trace (retry post n data st).2) = Some (Print RED MAX_RETRIES_TEXT).
Proof.
  revert st; induction n as [|n IH]; intros st.
  - intros _. simpl. unfold posts, printed. rewrite !omap_app, !length_app.
    simpl. rewrite last_snoc. split_and!; [lia|lia|done].
  - intros [(msg & Hmsg & _) Hrest]. cbn [retry]. unfold mbind, M_bind.
    assert ((attempt post data st).1 = inl (RequestException msg)) as Hmsg'
      by by rewrite attempt_oblivious.
    destruct (failed_attempt_continues post _ _ _ Hmsg') as (k & Hk & Heq).
    revert Hrest. cbv zeta.
    assert (self (call (iteration post data) (self st) (world st)).2 =
              self (iteration post data st).2
            ∧ world (call (iteration post data) (self st) (world st)).2 =
              world (iteration post data st).2) as [-> ->]
      by by rewrite (iteration_oblivious post data st).
    rewrite Heq, handler_eq by (simpl; by eapply credential_nonempty).
    simpl. intros Hrest.
    match goal with |- context [retry post n data ?s] =>
      destruct (IH s Hrest) as (Hp & Hl & Hlast)
    end.
    rewrite Hp, Hl, Hlast. simpl. unfold posts, printed.
    rewrite !omap_app, !length_app. simpl.
    split_and!; [|by destruct (is_rate_limit msg); simpl; lia|done].
    destruct (is_rate_limit msg); simpl; lia.
Qed.

(** The cursor has moved, around the pool, by as many places as yellow
    lines were printed. *)
Lemma retry_cursor n data st :
  valid (self st) →
  ∃ new,
    trace (retry post n data st).2 = trace st ++ new
    ∧ current_key_index (self (retry post n data st).2) =
        (current_key_index (self st) + length (rate_limit_lines new))
          `mod` length (api_keys (self st)).
Proof.
  revert st; induction n as [|n IH]; intros st Hv.
  - exists [Print RED MAX_RETRIES_TEXT]. split; [done|]. simpl.
    rewrite Nat.add_0_r, Nat.mod_small; done.
  - cbn [retry]. unfold mbind, M_bind. rewrite iteration_eq.
    destruct (valid_credential _ Hv) as [k Hk]. rewrite Hk. cbv zeta.
    pose proof (credential_nonempty _ _ Hk) as Hne.
    destruct (verdict_of _) as [r|msg|e]; simpl.
    + exists [Post (request_with k data)]. split; [done|]. simpl.
      rewrite Nat.add_0_r, Nat.mod_small; done.
    + rewrite handler_eq by done. simpl.
      match goal with |- context [retry post n data ?s] =>
        destruct (IH s) as (new & Hnew & Hcursor)
      end.
      { unfold valid in *. simpl. destruct (is_rate_limit msg); [|done].
        apply Nat.mod_upper_bound. lia. }
      rewrite Hnew, Hcursor. simpl. eexists. rewrite <- !app_assoc.
      split; [done|]. unfold rate_limit_lines. rewrite omap_app, length_app.
      destruct (is_rate_limit msg); simpl.
      * rewrite Nat.Div0.add_mod_idemp_l. f_equal.
        by rewrite <- Nat.add_assoc.
      * done.
    + exists [Post (request_with k data)]. split; [done|]. simpl.
      rewrite Nat.add_0_r, Nat.mod_small; done.
Qed.

End Facts.

End Loop.

(** ** Rotation *)

Module Rotation.
Import Py Requests GroqNode Observe Dispatcher Methods.

Section Facts.
Context {World : Type}.
Variable post : World → Request → post_result * World.
Context {Tensor PIL : Type}.
Variable tensor_to_pil : Tensor → PIL.
Variable encode_image : PIL → option string.

#[local] Existing Instances M_ret M_bind.

Lemma get_next_api_key_eq (st : @State World) :
  api_keys (self st) ≠ [] →
  ∃ k,
    api_keys (self st)
      !! ((current_key_index (self st) + 1) `mod` length (api_keys (self st)))
      = Some k
    ∧ get_next_api_key st =
        (inr k,
         {| self :=
              {| api_keys := api_keys (self st);
                 current_key_index :=
                   (current_key_index (self st) + 1)
                     `mod` length (api_keys (self st));
                 prompt_options := prompt_options (self st) |};
            world := world st; trace := trace st |}).
Proof.
  destruct st as [[keys idx opts] w tr]; simpl. intros Hkeys.
  unfold get_next_api_key, get_self, set_current_key_index, raise,
    mbind, M_bind, mret, M_ret; simpl.
  destruct keys as [|k0 keys]; [done|].
  change (length (k0 :: keys)) with (S (length keys)). cbv iota beta.
  assert ((idx + 1) `mod` S (length keys) < length (k0 :: keys)) as Hlt.
  { simpl. apply Nat.mod_upper_bound. lia. }
  destruct (lookup_lt_is_Some_2 _ _ Hlt) as [k Hk].
  exists k. simpl in *. by rewrite Hk.
Qed.

Lemma rotations_eq (n : nat) (me : Node) (w : World) :
  valid me →
  Instance.run post tensor_to_pil encode_image
    (replicate n Instance.Rotate) me w =
    ({| api_keys := api_keys me;
        current_key_index :=
          (current_key_index me + n) `mod` length (api_keys me);
        prompt_options := prompt_options me |}, w).
Proof.
  revert me; induction n as [|n IH]; intros me Hv.
  - simpl. rewrite Nat.add_0_r, Nat.mod_small by done. by destruct me.
  - cbn [replicate Instance.run Instance.perform]. cbv zeta.
    assert (api_keys me ≠ []) as Hne.
    { intros Hnil. unfold valid in Hv. rewrite Hnil in Hv. simpl in Hv. lia. }
    unfold call, mbind, M_bind.
    destruct (get_next_api_key_eq {| self := me; world := w; trace := [] |} Hne)
      as (k & _ & ->).
    simpl. rewrite IH; simpl.
    + rewrite Nat.Div0.add_mod_idemp_l. do 3 f_equal. lia.
    + unfold valid in *. simpl. apply Nat.mod_upper_bound. lia.
Qed.

Lemma perform_keeps_presets (op : Instance.operation) (st : @State World) :
  prompt_options
    (self (Instance.perform post tensor_to_pil encode_image op st).2) =
    prompt_options (self st).
Proof.
  assert (∀ A (m : M A) (s : @State World), ((m;; mret ()) s).2 = (m s).2)
    as Hdrop.
  { intros A m s. unfold mbind, M_bind. by destruct (m s) as [[e|a] s']. }
  destruct op; cbn [Instance.perform]; rewrite Hdrop.
  - destruct (decide (api_keys (self st) = [])) as [Hnil|Hne].
    + unfold get_next_api_key, get_self, raise, mbind, M_bind. simpl.
      by rewrite Hnil.
    + by destruct (get_next_api_key_eq st Hne) as (k & _ & ->).
  - match goal with |- context [GroqAPILLM.process_completion_request
        _ ?a ?b ?c ?d ?e ?f ?g ?h ?i ?j ?k st] =>
      by destruct (text_request_follows post a b c d e f g h i j k st)
        as (_ & -> & _)
    end.
  - match goal with |- context [GroqAPIVLM.process_completion_request
        _ _ _ ?a ?b ?c ?d ?e ?f ?g ?h ?i ?j ?k ?l st] =>
      by destruct (vision_request_follows post tensor_to_pil encode_image
                     a b c d e f g h i j k l st) as (ms & _ & -> & _)
    end.
Qed.

End Facts.

End Rotation.

(** ** More on the nodes *)

Section More.
Import Py Requests GroqNode Observe Dispatcher Methods Loop Rotation.

Context {World : Type}.
Variable post : World → Request → post_result * World.
Context {Tensor PIL : Type}.
Variable tensor_to_pil : Tensor → PIL.
Variable encode_image : PIL → option string.

Variables (me : Node) (w : World).
Variables (model preset system_message user_input : string).
Variables (temperature top_p : float) (max_tokens seed max_retries : Z).
Variables (stop : string) (json_mode : bool).
Variable t : Tensor.

Local Abbreviation text_request :=
  (GroqAPILLM.process_completion_request post model preset system_message
     user_input temperature max_tokens top_p seed max_retries stop json_mode).
Local Abbreviation vision_request image :=
  (GroqAPIVLM.process_completion_request post tensor_to_pil encode_image
     model image temperature max_tokens top_p seed max_retries stop json_mode
     preset system_message user_input).
Local Abbreviation text_data :=
  (GroqAPILLM.build_data model (GroqAPILLM.resolve me preset system_message)
     user_input temperature max_tokens top_p seed stop).
Local Abbreviation vision_data :=
  (GroqAPIVLM.build_data model
     (GroqAPIVLM.tensor_messages tensor_to_pil encode_image t
        (GroqAPIVLM.resolve me preset system_message) user_input)
     temperature max_tokens top_p seed stop).
Local Abbreviation tensor := (GroqAPIVLM.ImageTensor t).
Local Abbreviation start := {| self := me; world := w; trace := [] |}.
Local Abbreviation vision_start :=
  {| self := me; world := w;
     trace := if GroqAPIVLM.encoded (encode_image (tensor_to_pil t)) then []
              else [Print RED "Failed to encode image."] |}.

(** A call sends at most [max_retries] requests, whatever the service
    answers, and none at all for a [max_retries] below 1. *)
Theorem requests_are_bounded (image : GroqAPIVLM.image_arg) :
  (length (posts (trace (call text_request me w).2)) ≤ Z.to_nat max_retries)%nat
  ∧ (length (posts (trace (call (vision_request image) me w).2))
       ≤ Z.to_nat max_retries)%nat.
Proof.
  unfold call. split.
  - rewrite text_request_eq. destruct (seeding seed); [simpl; lia|].
    exact (retry_posts_bound post _ _ start).
  - destruct image as [|t'|v].
    + rewrite vision_request_no_tensor by done.
      destruct (seeding seed); simpl; lia.
    + rewrite vision_request_eq. destruct (seeding seed); [simpl; lia|].
      match goal with |- context [retry post ?n ?d ?s] =>
        pose proof (retry_posts_bound post n d s) as Hbound
      end.
      simpl in Hbound. by destruct (GroqAPIVLM.encoded _).
    + rewrite vision_request_no_tensor by done.
      destruct (seeding seed); simpl; lia.
Qed.

(** For a seed of the range the nodes declare, 0 .. 2**32-1: with a
    [max_retries] below 1 the loop body never runs: the call sends nothing
    and still reports "429 Too Many Requests". *)
Theorem no_retries_no_request :
  (0 ≤ seed < 2 ^ 32)%Z →
  (max_retries ≤ 0)%Z →
  call text_request me w =
    (inr (PyStr "Max retries reached. Unable to complete the request.",
          false, PyStr "429 Too Many Requests"),
     {| self := me; world := w;
        trace :=
          [Print RED "Max retries reached. Unable to complete the request."] |})
  ∧ (call (vision_request tensor) me w).1 =
      inr (PyStr "Max retries reached. Unable to complete the request.",
           false, PyStr "429 Too Many Requests")
  ∧ posts (trace (call (vision_request tensor) me w).2) = []
  ∧ world (call (vision_request tensor) me w).2 = w.
Proof.
  intros Hseed Hn. unfold call. rewrite text_request_eq, vision_request_eq.
  rewrite seeding_in_range by done.
  replace (Z.to_nat max_retries) with 0 by lia. simpl.
  split_and!; try done. by destruct (GroqAPIVLM.encoded _).
Qed.

(** For a seed of the range the nodes declare, 0 .. 2**32-1: a call whose
    attempts all fail has sent exactly [max_retries] requests;
    the text node has printed one line per attempt and, last, the line
    "Max retries reached. Unable to complete the request.". *)
Theorem exhausted_call_counts :
  (0 ≤ seed < 2 ^ 32)%Z →
  (all_attempts_fail post (Z.to_nat max_retries) text_data me w →
   length (posts (trace (call text_request me w).2)) = Z.to_nat max_retries
   ∧ length (printed (trace (call text_request me w).2)) =
       Z.to_nat max_retries + 1
   ∧ last (trace (call text_request me w).2) =
       Some (Print RED "Max retries reached. Unable to complete the request."))
  ∧ (all_attempts_fail post (Z.to_nat max_retries) vision_data me w →
     length (posts (trace (call (vision_request tensor) me w).2)) =
       Z.to_nat max_retries).
Proof.
  intros Hseed. unfold call. rewrite text_request_eq, vision_request_eq.
  rewrite seeding_in_range by done. simpl. split.
  - intros Hfail.
    by destruct (retry_exhausted_counts post _ _ _ start Hfail) as (-> & -> & ->).
  - intros Hfail.
    destruct (retry_exhausted_counts post _ _ _ vision_start Hfail)
      as (-> & _ & _).
    simpl. by destruct (GroqAPIVLM.encoded _).
Qed.

(** After a call the cursor has moved, around the pool, by the number of
    "Rate limit reached ..." lines the call has printed. *)
Theorem cursor_moves_with_yellow_lines (image : GroqAPIVLM.image_arg) :
  valid me →
  current_key_index (self (call text_request me w).2) =
    (current_key_index me
       + length (rate_limit_lines (trace (call text_request me w).2)))
      `mod` length (api_keys me)
  ∧ current_key_index (self (call (vision_request image) me w).2) =
      (current_key_index me
         + length (rate_limit_lines
                     (trace (call (vision_request image) me w).2)))
        `mod` length (api_keys me).
Proof.
  intros Hv.
  assert (current_key_index me =
            (current_key_index me + 0) `mod` length (api_keys me)) as Hstay
    by by rewrite Nat.add_0_r, Nat.mod_small.
  unfold call. split.
  - rewrite text_request_eq. destruct (seeding seed); [done|].
    match goal with |- context [retry post ?n ?d ?s] =>
      by destruct (retry_cursor post n d s Hv) as (new & -> & ->)
    end.
  - destruct image as [|t'|v].
    + rewrite vision_request_no_tensor by done.
      by destruct (seeding seed).
    + rewrite vision_request_eq. destruct (seeding seed); [done|].
      match goal with |- context [retry post ?n ?d ?s] =>
        destruct (retry_cursor post n d s Hv) as (new & -> & ->)
      end.
      simpl. unfold rate_limit_lines. rewrite omap_app.
      by destruct (GroqAPIVLM.encoded _).
    + rewrite vision_request_no_tensor by done.
      by destruct (seeding seed).
Qed.

(** For a seed of the range the nodes declare, 0 .. 2**32-1: a call ends
    with the first attempt that does not end in a request
    failure: after [j] failed attempts, [j] below [max_retries], it returns
    what the next attempt returns, or raises what it raises, and does
    nothing after it. *)
Theorem call_ends_with_conclusive_attempt (j : nat) :
  (0 ≤ seed < 2 ^ 32)%Z →
  j < Z.to_nat max_retries →
  (all_attempts_fail post j text_data me w →
   (∀ msg, (attempt post text_data
              (after_iterations post j text_data start)).1 ≠
             inl (RequestException msg)) →
   call text_request me w =
     attempt post text_data (after_iterations post j text_data start))
  ∧ (all_attempts_fail post j vision_data me w →
     (∀ msg, (attempt post vision_data
                (after_iterations post j vision_data vision_start)).1 ≠
               inl (RequestException msg)) →
     call (vision_request tensor) me w =
       attempt post vision_data
         (after_iterations post j vision_data vision_start)).
Proof.
  intros Hseed Hj. unfold call. rewrite text_request_eq, vision_request_eq.
  rewrite seeding_in_range by done. simpl.
  split; intros Hfail Hres.
  - by apply (retry_ends_with_attempt post j _ _ start).
  - by apply (retry_ends_with_attempt post j _ _ vision_start).
Qed.

(** For a seed of the range the nodes declare, 0 .. 2**32-1: the first
    request of a node just built carries the first credential of
    the configuration, and the placeholder "default_api_key" when no file
    has a section [API_KEYS]. *)
Theorem first_request_of_a_new_node (fs : Files) :
  (0 ≤ seed < 2 ^ 32)%Z →
  init fs = inr me →
  (0 < max_retries)%Z →
  ∃ k others later,
    api_keys me = k :: others
    ∧ posts (trace (call text_request me w).2) =
        request_with k text_data :: later
    ∧ ((∀ f, groq_config fs = Some f → f !! "API_KEYS" = None) →
       (∀ f, parent_groq_config fs = Some f → f !! "API_KEYS" = None) →
       k = "default_api_key").
Proof.
  intros Hseed Hinit Hn. pose proof (init_valid _ _ Hinit) as Hv.
  assert (current_key_index me = 0) as Hzero.
  { unfold init in Hinit. destruct (load_api_keys fs); [done|].
    by injection Hinit as <-. }
  destruct (api_keys me) as [|k others] eqn:Hkeys.
  { unfold valid in Hv. rewrite Hkeys in Hv. simpl in Hv. lia. }
  assert (credential me = Some k) as Hk
    by (unfold credential; by rewrite Hkeys, Hzero).
  destruct (Z.to_nat max_retries) as [|n] eqn:Hnat; [lia|].
  destruct (retry_first_post post n text_data start k Hk) as [later Hlater].
  exists k, others, later. unfold call. rewrite text_request_eq, Hnat.
  rewrite seeding_in_range by done.
  split_and!; [done|done|].
  intros Hlocal Hparent.
  rewrite (Files.placeholder_without_section fs Hlocal Hparent) in Hinit.
  injection Hinit as <-. simpl in Hkeys. by injection Hkeys as <- _.
Qed.

(** [get_next_api_key] moves the cursor one place around the pool and
    returns the credential now under it, without printing or sending
    anything; on an empty pool it raises [ZeroDivisionError]. *)
Theorem get_next_api_key_returns_next :
  (api_keys me ≠ [] →
   ∃ k,
     api_keys me !! ((current_key_index me + 1) `mod` length (api_keys me))
       = Some k
     ∧ call get_next_api_key me w =
         (inr k,
          {| self :=
               {| api_keys := api_keys me;
                  current_key_index :=
                    (current_key_index me + 1) `mod` length (api_keys me);
                  prompt_options := prompt_options me |};
             world := w; trace := [] |}))
  ∧ (api_keys me = [] →
     call get_next_api_key me w = (inl ZeroDivisionError, start)).
Proof.
  split.
  - intros Hne. exact (get_next_api_key_eq start Hne).
  - intros Hnil. unfold call, get_next_api_key, get_self, raise, mbind, M_bind.
    simpl. by rewrite Hnil.
Qed.

(** [n] rotations move the cursor [n] places around the pool: as many
    rotations as the pool has credentials bring the node back to where it
    was. *)
Theorem rotations_go_around (n : nat) :
  valid me →
  Instance.run post tensor_to_pil encode_image
    (replicate n Instance.Rotate) me w =
    ({| api_keys := api_keys me;
        current_key_index :=
          (current_key_index me + n) `mod` length (api_keys me);
        prompt_options := prompt_options me |}, w)
  ∧ Instance.run post tensor_to_pil encode_image
      (replicate (length (api_keys me)) Instance.Rotate) me w = (me, w).
Proof.
  intros Hv. split; [by apply rotations_eq|].
  rewrite rotations_eq by done.
  replace (current_key_index me + length (api_keys me))
    with (current_key_index me + 1 * length (api_keys me)) by lia.
  rewrite Nat.Div0.mod_add, Nat.mod_small by done. by destruct me.
Qed.

(** No rotation and no completion request, returning or raising, changes
    the presets of a node. *)
Theorem presets_are_read_only (ops : list Instance.operation) :
  prompt_options (Instance.run post tensor_to_pil encode_image ops me w).1 =
    prompt_options me.
Proof.
  revert me w. clear. intros me w.
  revert me w; induction ops as [|op ops IH]; intros me w; [done|].
  cbn [Instance.run]. cbv zeta. rewrite IH. unfold call.
  by rewrite perform_keeps_presets.
Qed.

(** A seed outside 0 .. 2**32-1 makes [process_completion_request] raise in
    its first statements ([ValueError] from [np.random.seed], or
    [RuntimeError] from [torch.manual_seed] for a seed that does not fit 64
    bits), before anything else: nothing is printed or sent, the object is
    as it was, and the vision node does not get to look at its image. *)
Theorem seed_out_of_range_raises (image : GroqAPIVLM.image_arg) :
  ¬ (0 ≤ seed < 2 ^ 32)%Z →
  ∃ e, (e = ValueError ∨ e = RuntimeError)
     ∧ call text_request me w = (inl e, start)
     ∧ call (vision_request image) me w = (inl e, start).
Proof.
  intros Hseed. unfold call.
  assert (GroqAPIVLM.process_completion_request post tensor_to_pil
            encode_image model image temperature max_tokens top_p seed
            max_retries stop json_mode preset system_message user_input start =
          match seeding seed with
          | inl e => (inl e, start)
          | inr _ =>
              GroqAPIVLM.process_completion_request post tensor_to_pil
                encode_image model image temperature max_tokens top_p seed
                max_retries stop json_mode preset system_message user_input
                start
          end) as ->.
  { unfold GroqAPIVLM.process_completion_request at 1, lift, mbind, M_bind.
    destruct (seeding seed) eqn:Hs; [done|].
    unfold GroqAPIVLM.process_completion_request, lift, mbind, M_bind.
    by rewrite Hs. }
  rewrite text_request_eq.
  destruct (seeding_out_of_range seed Hseed) as [-> | ->]; eauto.
Qed.

End More.

(** ** The nodes on concrete files and services *)

Module MoreExamples.
Import Py Requests GroqNode Observe Scenario Fixtures.

Lemma placeholder_without_section_witness :
  init unconfigured =
    inr {| api_keys := ["default_api_key"]; current_key_index := 0;
           prompt_options := ∅ |}.
Proof.
  refine (Files.placeholder_without_section unconfigured _ _).
  - by intros f [= <-].
  - by intros f [=].
Defined.

Lemma local_config_wins_witness :
  ∃ pool,
    load_api_keys configured = inr pool
    ∧ pool_of "gsk_one, gsk_two ,gsk_three" pool
    ∧ length pool = S (count "," "gsk_one, gsk_two ,gsk_three").
Proof.
  exact (Files.local_config_wins configured three_keys_ini
           {[ "groq_keys" := "gsk_one, gsk_two ,gsk_three" ]}
           "gsk_one, gsk_two ,gsk_three" eq_refl eq_refl eq_refl).
Defined.

(** The white space beyond code point 127 is stripped like the blank. *)
Example spaced_keys_are_stripped :
  load_api_keys spaced = inr ["gsk_one"; "gsk_two"]
  ∧ load_api_keys configured = inr ["gsk_one"; "gsk_two"; "gsk_three"].
Proof. split; reflexivity. Qed.

Lemma parent_config_is_second_witness :
  ∃ pool,
    load_api_keys configured_above = inr pool
    ∧ pool_of "gsk_parent" pool
    ∧ length pool = S (count "," "gsk_parent").
Proof.
  refine (Files.parent_config_is_second configured_above parent_ini
            {[ "groq_keys" := "gsk_parent" ]} "gsk_parent" _
            eq_refl eq_refl eq_refl).
  by intros f [= <-].
Defined.

Lemma missing_option_raises_witness :
  init misconfigured = inl (KeyError (KStr "groq_keys")).
Proof.
  exact (Files.missing_option_raises misconfigured no_option_ini
           {[ "openai_keys" := "sk_one" ]} eq_refl eq_refl eq_refl).
Defined.

Lemma credentials_are_stripped_witness :
  Forall (λ k, trimmed k ∧ count "," k = 0) ["gsk_one"; "gsk_two"].
Proof.
  exact (Files.credentials_are_stripped spaced ["gsk_one"; "gsk_two"] eq_refl).
Defined.

Lemma user_prompts_override_witness :
  load_prompt_options configured !! "terse" = Some "Answer briefly."
  ∧ load_prompt_options configured !! "poet" = Some "Answer in verse.".
Proof.
  split.
  - refine (proj2 (Files.user_prompts_override configured "terse" _ _)); done.
  - refine (proj2 (Files.user_prompts_override configured "poet" _ _)); done.
Defined.


Lemma no_retries_no_request_witness :
  text_request three_keys [answer 200 "OK" (inr (completion "Hi"))] "terse" 0 =
    (inr (PyStr "Max retries reached. Unable to complete the request.",
          false, PyStr "429 Too Many Requests"),
     {| self := three_keys;
        world := [answer 200 "OK" (inr (completion "Hi"))];
        trace :=
          [Print RED "Max retries reached. Unable to complete the request."] |}).
Proof.
  refine (proj1 (no_retries_no_request play pil_of encode three_keys
                   [answer 200 "OK" (inr (completion "Hi"))] "llama3-8b-8192"
                   "terse" "Be kind." "Hello" 0.5%float 1%float 1024 42 0 ""
                   false None _ _)); lia.
Defined.

Lemma exhausted_call_counts_witness :
  length (posts (trace (text_request three_keys
                          [Failed "rate limit"; Failed "Connection refused"]
                          "terse" 2).2)) = 2.
Proof.
  refine (proj1 (proj1 (exhausted_call_counts play pil_of encode three_keys
                          [Failed "rate limit"; Failed "Connection refused"]
                          "llama3-8b-8192" "terse" "Be kind." "Hello"
                          0.5%float 1%float 1024 42 2 "" false None _) _)).
  - lia.
  - repeat (split; [eexists; split; [vm_compute; reflexivity|exact I]|]).
    exact I.
Defined.

Lemma cursor_moves_with_yellow_lines_witness :
  current_key_index
    (self (text_request three_keys
             [Failed "Rate limit"; Failed "Connection refused";
              Failed "RATE LIMIT"] "terse" 3).2) =
    (0 + length (rate_limit_lines
                   (trace (text_request three_keys
                             [Failed "Rate limit"; Failed "Connection refused";
                              Failed "RATE LIMIT"] "terse" 3).2)))
      `mod` 3.
Proof.
  refine (proj1 (cursor_moves_with_yellow_lines play pil_of encode three_keys
                   [Failed "Rate limit"; Failed "Connection refused";
                    Failed "RATE LIMIT"] "llama3-8b-8192" "terse" "Be kind."
                   "Hello" 0.5%float 1%float 1024 42 3 "" false
                   GroqAPIVLM.NoImage _)).
  unfold valid. simpl. lia.
Defined.

(** A rate-limit failure, then an answer: the call returns the answer,
    sent for with the second credential. *)
Lemma call_ends_with_conclusive_attempt_witness :
  text_request three_keys
    [Failed "rate limit"; answer 200 "OK" (inr (completion "Hi"))] "terse" 3 =
  attempt play
    (GroqAPILLM.build_data "llama3-8b-8192"
       (GroqAPILLM.resolve three_keys "terse" "Be kind.") "Hello" 0.5%float
       1024 1%float 42 "")
    (after_iterations play 1
       (GroqAPILLM.build_data "llama3-8b-8192"
          (GroqAPILLM.resolve three_keys "terse" "Be kind.") "Hello" 0.5%float
          1024 1%float 42 "")
       {| self := three_keys;
          world := [Failed "rate limit";
                    answer 200 "OK" (inr (completion "Hi"))];
          trace := [] |}).
Proof.
  refine (proj1 (call_ends_with_conclusive_attempt play pil_of encode
                   three_keys
                   [Failed "rate limit";
                    answer 200 "OK" (inr (completion "Hi"))]
                   "llama3-8b-8192" "terse" "Be kind." "Hello" 0.5%float
                   1%float 1024 42 3 "" false None 1 _ _) _ _).
  - lia.
  - vm_compute. lia.
  - split; [eexists; split; [vm_compute; reflexivity|exact I]|exact I].
  - intros msg. vm_compute. discriminate.
Defined.

Lemma first_request_of_a_new_node_witness :
  ∃ k others later,
    api_keys fallback = k :: others
    ∧ posts (trace (text_request fallback [Failed "Connection refused"]
                      GroqAPILLM.DEFAULT_PROMPT 1).2) =
        request_with k
          (GroqAPILLM.build_data "llama3-8b-8192"
             (GroqAPILLM.resolve fallback GroqAPILLM.DEFAULT_PROMPT "Be kind.")
             "Hello" 0.5%float 1024 1%float 42 "")
        :: later
    ∧ ((∀ f, groq_config no_files = Some f → f !! "API_KEYS" = None) →
       (∀ f, parent_groq_config no_files = Some f → f !! "API_KEYS" = None) →
       k = "default_api_key").
Proof.
  refine (first_request_of_a_new_node play fallback
            [Failed "Connection refused"] "llama3-8b-8192"
            GroqAPILLM.DEFAULT_PROMPT "Be kind." "Hello" 0.5%float 1%float
            1024 42 1 "" false no_files _ eq_refl _); lia.
Defined.

Lemma get_next_api_key_returns_next_witness :
  ∃ k,
    api_keys three_keys !! ((0 + 1) `mod` 3) = Some k
    ∧ call get_next_api_key three_keys ([] : list post_result) =
        (inr k,
         {| self :=
              {| api_keys := api_keys three_keys;
                 current_key_index := (0 + 1) `mod` 3;
                 prompt_options := prompt_options three_keys |};
            world := []; trace := [] |}).
Proof.
  refine (proj1 (get_next_api_key_returns_next three_keys
                   ([] : list post_result)) _).
  done.
Defined.

Lemma rotations_go_around_witness :
  Instance.run play pil_of encode (replicate 3 Instance.Rotate) three_keys
    [Failed "Connection refused"] =
    (three_keys, [Failed "Connection refused"]).
Proof.
  refine (proj2 (rotations_go_around play pil_of encode three_keys
                   [Failed "Connection refused"] 0 _)).
  unfold valid. simpl. lia.
Defined.

Lemma status_code_is_str_unless_success_witness :
  is_str (PyInt 200) = negb true.
Proof.
  exact (status_code_is_str_unless_success play pil_of encode fallback
           [answer 200 "OK" (inr (completion "Hi"))] "llama3-8b-8192"
           GroqAPILLM.DEFAULT_PROMPT "Be kind." "Hello" 0.5%float 1%float
           1024 42 2 "" false GroqAPIVLM.NoImage
           (PyStr "Hi", true, PyInt 200) (or_introl eq_refl)).
Defined.

(** The seed -1 with no image: the vision node raises before it comes to
    the image. *)
Lemma seed_out_of_range_raises_witness :
  ¬ (0 ≤ -1 < 2 ^ 32)%Z
  ∧ ∃ e, (e = ValueError ∨ e = RuntimeError)
       ∧ call (GroqAPILLM.process_completion_request play "llama3-8b-8192"
                 "terse" "Be kind." "Hello" 0.5%float 1024 1%float (-1) 2 ""
                 false)
           three_keys [answer 200 "OK" (inr (completion "Hi"))] =
         (inl e, {| self := three_keys;
                    world := [answer 200 "OK" (inr (completion "Hi"))];
                    trace := [] |})
       ∧ call (GroqAPIVLM.process_completion_request play pil_of encode
                 "llama3-8b-8192" GroqAPIVLM.NoImage 0.5%float 1024 1%float
                 (-1) 2 "" false "terse" "Be kind." "Hello")
           three_keys [answer 200 "OK" (inr (completion "Hi"))] =
         (inl e, {| self := three_keys;
                    world := [answer 200 "OK" (inr (completion "Hi"))];
                    trace := [] |}).
Proof.
  assert (¬ (0 ≤ -1 < 2 ^ 32)%Z) as Hseed by lia.
  split; [exact Hseed|].
  exact (seed_out_of_range_raises play pil_of encode three_keys
           [answer 200 "OK" (inr (completion "Hi"))] "llama3-8b-8192" "terse"
           "Be kind." "Hello" 0.5%float 1%float 1024 (-1) 2 "" false
           GroqAPIVLM.NoImage Hseed).
Defined.

Example seed_minus_one_is_a_value_error :
  seeding (-1) = inl ValueError ∧ seeding (2 ^ 32) = inl ValueError
  ∧ seeding (2 ^ 64) = inl RuntimeError ∧ seeding 4294967295 = inr ().
Proof. by split_and!. Qed.

End MoreExamples.
